(** * update_image_dates: a shallow embedding and its verification

    The program walks one folder, keeps the regular files whose extension is
    in a set, sorts their paths, and stamps the files one after the other with
    dates that start at a given moment and advance by a fixed number of
    minutes.  The stamping is done by two external commands per file
    ([touch] and [SetFile]).

    Python values are modelled as follows.
    - [str]: a [string], read as a sequence of code points below 256; order
      and case mapping are those of Python on such code points.
    - [set[str]]: a [gset string].
    - [datetime] (naive): the number of microseconds since
      0001-01-01 00:00:00, a [Z]; [timedelta] arithmetic is integer
      arithmetic with the range checks of the library.
    - [print]: one constructor of [message] per [print] statement.
    - [subprocess.run(..., check=True)]: an oracle of the host, see [Host]. *)

From Stdlib Require Import ZArith Lia Ascii String Sorted Permutation.
From stdpp Require Import gmap strings list sorting.

Local Open Scope Z_scope.

(** ** Strings *)

Module Str.

Definition code (c : ascii) : N := N_of_ascii c.

(** [str.lower] on code points below 256: the letters A-Z and the Latin-1
    capitals (U+00C0-U+00DE without the multiplication sign U+00D7) move
    up by 32, every other character stays. *)
Definition is_upper (c : ascii) : bool :=
  let n := code c in
  (((65 <=? n) && (n <=? 90)) ||
   ((192 <=? n) && (n <=? 222) && negb (n =? 215)))%N.

Definition lower_char (c : ascii) : ascii :=
  if is_upper c then ascii_of_N (code c + 32) else c.

Fixpoint lower (s : string) : string :=
  match s with
  | EmptyString => EmptyString
  | String c s' => String (lower_char c) (lower s')
  end.

(** [s.rfind(c)] for a one-character [c]: the highest index, or -1. *)
Fixpoint rfind (c : ascii) (s : string) : Z :=
  match s with
  | EmptyString => -1
  | String a s' =>
      let r := rfind c s' in
      if 0 <=? r then r + 1
      else if Ascii.eqb a c then 0 else -1
  end.

(** [s[lo:hi]] for [0 <= lo <= hi]. *)
Definition slice (s : string) (lo hi : Z) : string :=
  String.substring (Z.to_nat lo) (Z.to_nat (hi - lo)) s.

Definition len (s : string) : Z := Z.of_nat (String.length s).

(** [sub in s]. *)
Fixpoint contains (sub s : string) : bool :=
  String.prefix sub s ||
  match s with
  | EmptyString => false
  | String _ s' => contains sub s'
  end.

Definition ends_with_sep (s : string) : bool :=
  match String.get (String.length s - 1) s with
  | Some c => Ascii.eqb c "/"
  | None => false
  end.

End Str.

(** ** os.path *)

Module Path.

(** The loop of [genericpath._splitext] that skips the leading dots of the
    file name: it looks at the indices [filenameIndex], ..., [dotIndex - 1]
    and answers [true] at the first character that is not a dot.  [fuel]
    bounds the number of iterations, [dotIndex - filenameIndex] suffice. *)
Fixpoint finds_non_dot (fuel : nat) (p : string) (filenameIndex dotIndex : Z)
  : bool :=
  match fuel with
  | O => false
  | S fuel' =>
      if filenameIndex <? dotIndex then
        if negb (String.eqb (Str.slice p filenameIndex (filenameIndex + 1)) ".")
        then true
        else finds_non_dot fuel' p (filenameIndex + 1) dotIndex
      else false
  end.

(** [os.path.splitext] (POSIX: [sep = "/"], no [altsep], [extsep = "."]). *)
Definition splitext (p : string) : string * string :=
  let sepIndex := Str.rfind "/" p in
  let dotIndex := Str.rfind "." p in
  if (sepIndex <? dotIndex)
     && finds_non_dot (Z.to_nat (dotIndex - sepIndex)) p (sepIndex + 1) dotIndex
  then (Str.slice p 0 dotIndex, Str.slice p dotIndex (Str.len p))
  else (p, EmptyString).

(** [os.path.basename]: what follows the last slash. *)
Definition basename (p : string) : string :=
  let i := Str.rfind "/" p + 1 in
  Str.slice p i (Str.len p).

(** The [path] attribute of a [DirEntry]: the scanned path, a slash unless
    the path already ends with one, and the entry's name. *)
Definition join (folder name : string) : string :=
  if Str.ends_with_sep folder then folder +:+ name
  else folder +:+ "/" +:+ name.

End Path.

(** ** datetime *)

(** A naive [datetime]: microseconds since 0001-01-01 00:00:00.  The values
    Python can hold are those of [in_range]. *)
Definition datetime : Type := Z.

Inductive exn : Type :=
| FileNotFoundError
| PermissionError
| OverflowError.

Module Datetime.

Definition MAXORDINAL : Z := 3652059.          (* date.max.toordinal() *)
Definition US_PER_MINUTE : Z := 60000000.
Definition US_PER_DAY : Z := 86400000000.
Definition MAX_DELTA_DAYS : Z := 999999999.

Definition in_range (d : datetime) : bool :=
  (0 <=? d) && (d <? MAXORDINAL * US_PER_DAY).

(** The whole seconds of a date.  The two commands get the date through
    [strftime] with [%S] as the finest field, which shows these seconds and
    drops the microseconds. *)
Definition whole_seconds (d : datetime) : Z := d / 1000000.

(** [timedelta(minutes=m)], in microseconds: the constructor refuses a
    span of more than [MAX_DELTA_DAYS] days. *)
Definition timedelta_minutes (m : Z) : exn + Z :=
  if MAX_DELTA_DAYS <? Z.abs (m * 60 / 86400) then inl OverflowError
  else inr (m * US_PER_MINUTE).

(** [d + delta]: the sum must be a date of the years 1 to 9999. *)
Definition add (d : datetime) (delta : Z) : exn + datetime :=
  if in_range (d + delta) then inr (d + delta) else inl OverflowError.

(** [d + timedelta(minutes=m)]. *)
Definition add_minutes (d : datetime) (m : Z) : exn + datetime :=
  match timedelta_minutes m with
  | inl e => inl e
  | inr delta => add d delta
  end.

End Datetime.

(** ** The host: file system, clock, library parser and external commands *)

(** A [DirEntry] of [os.scandir]. *)
Record DirEntry : Type := { name : string; is_file : bool }.

Definition entry_path (folder_path : string) (entry : DirEntry) : string :=
  Path.join folder_path (name entry).

(** The two commands of the loop.  [Touch d p] stands for
    [['touch', '-mt', d.strftime("%Y%m%d%H%M.%S"), p]] and [SetFile d p] for
    [['SetFile', '-d', d.strftime("%m/%d/%Y %H:%M:%S"), p]]: the date
    argument is a rendering of [d], so the command is kept with [d] itself. *)
Inductive command : Type :=
| Touch (date : datetime) (file_path : string)
| SetFile (date : datetime) (file_path : string).

Definition command_date (c : command) : datetime :=
  match c with Touch d _ | SetFile d _ => d end.

Definition command_path (c : command) : string :=
  match c with Touch _ p | SetFile _ p => p end.

(** What [subprocess.run(argv, check=True)] does: the command exits with
    status 0; or it exits with another status, and [CalledProcessError] is
    raised; or it cannot be started at all, and the [OSError] of the launch
    is raised ([FileNotFoundError] when the program does not exist). *)
Inductive run_outcome : Type :=
| Completed
| NonZeroExit (returncode : Z)
| NotStarted (e : exn).

Record CalledProcessError : Type := { cmd : command; returncode : Z }.

(** The commands of one run differ pairwise (the date grows from file to
    file, and the two commands of a file have different programs), so an
    oracle indexed by the command describes every behaviour of the
    outside world during a run.  [strptime text format] is
    [datetime.strptime], [None] standing for [ValueError]. *)
Record Host : Type := {
  isdir : string -> bool;
  scandir : string -> exn + list DirEntry;
  now : datetime;
  strptime : string -> string -> option datetime;
  subprocess_run : command -> run_outcome;
}.

(** ** Output and results *)

(** One constructor per [print] statement of [update_image_dates]. *)
Inductive message : Type :=
| NotADirectory (folder_path : string)
| IncrementNotPositive
| NoImageFiles
| InvalidDateFormat
| Found (n : nat)
| StartingDate (d : datetime)
| IncrementIs (increment_minutes : Z)
| Updated (i total_files : nat) (basename : string) (d : datetime)
| ErrorUpdating (file_path : string) (e : CalledProcessError)
| SetFileNotFoundNote
| InstallHint.

Inductive event : Type :=
| Print (m : message)
| Ran (c : command) (o : run_outcome).

(** How the call of [update_image_dates] ends. *)
Inductive completion : Type :=
| Finished                (* the loop has consumed every file *)
| Returned                (* a [return] statement *)
| Broke                   (* [break]: the loop is left, the function ends *)
| Raised (e : exn).       (* an exception leaves the function *)

Record result : Type := { log : list event; exit : completion }.

Definition finish (c : completion) : result := {| log := []; exit := c |}.

Definition emit (ev : event) (r : result) : result :=
  {| log := ev :: log r; exit := exit r |}.

Notation "'print' m ';;' r" := (emit (Print m) r)
  (at level 10, m at level 9, r at level 200).

Definition ran (ev : event) : option command :=
  match ev with Ran c _ => Some c | Print _ => None end.

Definition printed_of (ev : event) : option message :=
  match ev with Print m => Some m | Ran _ _ => None end.

(** The timestamp-setting calls that were issued, in order. *)
Definition calls (r : result) : list command := omap ran (log r).

(** The lines that were printed, in order. *)
Definition printed (r : result) : list message := omap printed_of (log r).

Definition raises (r : result) : bool :=
  match exit r with Raised _ => true | _ => false end.

(** ** update_image_dates *)

Definition IMAGE_EXTENSIONS : gset string :=
  {[ ".jpg"; ".jpeg"; ".png"; ".tiff"; ".tif"; ".heic"; ".nef"; ".cr2"; ".arw" ]}.

(** The test of line 44:
    [entry.is_file() and os.path.splitext(entry.name)[1].lower() in valid_extensions]. *)
Definition is_image (valid_extensions : gset string) (entry : DirEntry) : bool :=
  is_file entry
  && bool_decide ((Str.lower (Path.splitext (name entry)).2) ∈ valid_extensions).

(** The scan loop of lines 43-45; [image_files] is the list built so far. *)
Fixpoint collect (folder_path : string) (valid_extensions : gset string)
    (entries : list DirEntry) (image_files : list string) : list string :=
  match entries with
  | [] => image_files
  | entry :: entries' =>
      if is_image valid_extensions entry
      then collect folder_path valid_extensions entries'
             (image_files ++ [entry_path folder_path entry])
      else collect folder_path valid_extensions entries' image_files
  end.

(** The order of [str]: [a <= b]. *)
Definition str_le (a b : string) : Prop := Is_true (String.leb a b).

(** [image_files.sort()]. *)
Definition sort (l : list string) : list string := merge_sort str_le l.

(** The paths of the images of a listing, in the order of processing. *)
Definition sorted_images (folder_path : string) (valid_extensions : gset string)
    (entries : list DirEntry) : list string :=
  sort (collect folder_path valid_extensions entries []).

Inductive start_date_arg : Type :=
| Text (s : string)
| Moment (d : datetime).

Definition DATE_FORMAT : string := "%Y-%m-%d %H:%M:%S".

(** Lines 54-61; [None] when the text does not parse. *)
Definition resolve_start (h : Host) (start_date : option start_date_arg)
  : option datetime :=
  match start_date with
  | None => Some (now h)
  | Some (Text s) => strptime h s DATE_FORMAT
  | Some (Moment d) => Some d
  end.

(** ["SetFile" in str(e)]: [str(e)] is the text
    [Command '<argv>' returned non-zero exit status <n>.] (or
    [... died with <signal>.]), with the list [argv] printed as Python prints
    a list of strings.  The program name and the file path are in it; the
    date argument has digits and punctuation only. *)
Definition mentions_SetFile (e : CalledProcessError) : bool :=
  match cmd e with
  | SetFile _ _ => true
  | Touch _ file_path => Str.contains "SetFile" file_path
  end.

(** The [except subprocess.CalledProcessError] clause, lines 89-95. *)
Definition on_error (file_path : string) (e : CalledProcessError) : result :=
  print (ErrorUpdating file_path e) ;;
  if mentions_SetFile e
  then print SetFileNotFoundNote ;; print InstallHint ;; finish Broke
  else finish Returned.

(** [subprocess.run(c, check=True)] inside the [try] block of the file
    [file_path], followed by [k]. *)
Definition run_checked (h : Host) (file_path : string) (c : command)
    (k : result) : result :=
  emit (Ran c (subprocess_run h c))
    match subprocess_run h c with
    | Completed => k
    | NonZeroExit rc => on_error file_path {| cmd := c; returncode := rc |}
    | NotStarted e => finish (Raised e)
    end.

(** The loop of lines 71-95 on the files that remain; [i] is the index of
    [enumerate(image_files, 1)]. *)
Fixpoint process (h : Host) (increment_minutes : Z) (total_files : nat)
    (i : nat) (current_date : datetime) (files : list string) : result :=
  match files with
  | [] => finish Finished
  | file_path :: files' =>
      run_checked h file_path (Touch current_date file_path)
        (run_checked h file_path (SetFile current_date file_path)
           (print (Updated i total_files (Path.basename file_path) current_date) ;;
            match Datetime.add_minutes current_date increment_minutes with
            | inl e => finish (Raised e)
            | inr next_date =>
                process h increment_minutes total_files (S i) next_date files'
            end))
  end.

Definition update_image_dates (h : Host) (folder_path : string)
    (start_date : option start_date_arg) (increment_minutes : Z)
    (extensions : option (gset string)) : result :=
  if negb (isdir h folder_path) then
    print (NotADirectory folder_path) ;; finish Returned
  else if increment_minutes <=? 0 then
    print IncrementNotPositive ;; finish Returned
  else
    let valid_extensions := default IMAGE_EXTENSIONS extensions in
    match scandir h folder_path with
    | inl e => finish (Raised e)
    | inr entries =>
        let image_files := sorted_images folder_path valid_extensions entries in
        match image_files with
        | [] => print NoImageFiles ;; finish Returned
        | _ :: _ =>
            match resolve_start h start_date with
            | None => print InvalidDateFormat ;; finish Returned
            | Some start_date =>
                print (Found (length image_files)) ;;
                print (StartingDate start_date) ;;
                print (IncrementIs increment_minutes) ;;
                process h increment_minutes (length image_files) 1
                  start_date image_files
            end
        end
    end.

(** ** A model of [datetime.strptime] for the format of the program

    The library turns the format into the regular expression
    [(\d\d\d\d)-(1[0-2]|0[1-9]|[1-9])-(3[0-1]|[1-2]\d|0[1-9]|[1-9]| [1-9])\s+(2[0-3]|[0-1]\d|\d):([0-5]\d|\d):(6[0-1]|[0-5]\d|\d)],
    takes its first match at the start of the text, refuses text that is left
    over, and builds the [datetime] from the six numbers, which refuses the
    year 0, a day the month does not have, and a second above 59.  The
    parsers below list their matches in the order in which the regular
    expression engine tries them. *)

Module Strptime.

Definition parser (A : Type) : Type := list ascii -> list (A * list ascii).

Definition ret {A} (a : A) : parser A := fun s => [(a, s)].

Definition bind {A B} (p : parser A) (f : A -> parser B) : parser B :=
  fun s => flat_map (fun ar => f ar.1 ar.2) (p s).

Definition alt {A} (p q : parser A) : parser A := fun s => p s ++ q s.

Definition digit_value (c : ascii) : option Z :=
  let n := Z.of_N (Str.code c) in
  if (48 <=? n) && (n <=? 57) then Some (n - 48) else None.

(** One digit between [lo] and [hi]: the class [[lo-hi]]. *)
Definition digit (lo hi : Z) : parser Z := fun s =>
  match s with
  | c :: s' =>
      match digit_value c with
      | Some v => if (lo <=? v) && (v <=? hi) then [(v, s')] else []
      | None => []
      end
  | [] => []
  end.

Definition two (p q : parser Z) : parser Z :=
  bind p (fun a => bind q (fun b => ret (10 * a + b))).

Definition lit (c : ascii) : parser unit := fun s =>
  match s with
  | a :: s' => if Ascii.eqb a c then [(tt, s')] else []
  | [] => []
  end.

(** [\s] on code points below 256. *)
Definition is_space (c : ascii) : bool :=
  let n := Z.of_N (Str.code c) in
  ((9 <=? n) && (n <=? 13)) || ((28 <=? n) && (n <=? 32))
  || (n =? 133) || (n =? 160).

Fixpoint skip_spaces (s : list ascii) : list ascii :=
  match s with
  | c :: s' => if is_space c then skip_spaces s' else s
  | [] => []
  end.

(** [\s+] before a digit: the whole run of white space (a shorter run is
    followed by white space, never by the digit that must come next). *)
Definition spaces1 : parser unit := fun s =>
  match s with
  | c :: s' => if is_space c then [(tt, skip_spaces s')] else []
  | [] => []
  end.

Definition any_digit : parser Z := digit 0 9.

Definition p_Y : parser Z :=
  bind any_digit (fun a => bind any_digit (fun b =>
  bind any_digit (fun c => bind any_digit (fun d =>
  ret (1000 * a + 100 * b + 10 * c + d))))).
Definition p_m : parser Z :=
  alt (two (digit 1 1) (digit 0 2)) (alt (two (digit 0 0) (digit 1 9)) (digit 1 9)).
Definition p_d : parser Z :=
  alt (two (digit 3 3) (digit 0 1))
 (alt (two (digit 1 2) any_digit)
 (alt (two (digit 0 0) (digit 1 9))
 (alt (digit 1 9)
      (bind (lit " ") (fun _ => digit 1 9))))).
Definition p_H : parser Z :=
  alt (two (digit 2 2) (digit 0 3)) (alt (two (digit 0 1) any_digit) any_digit).
Definition p_M : parser Z :=
  alt (two (digit 0 5) any_digit) any_digit.
Definition p_S : parser Z :=
  alt (two (digit 6 6) (digit 0 1)) (alt (two (digit 0 5) any_digit) any_digit).

Definition fields : parser (Z * Z * Z * Z * Z * Z) :=
  bind p_Y (fun year => bind (lit "-") (fun _ =>
  bind p_m (fun month => bind (lit "-") (fun _ =>
  bind p_d (fun day => bind spaces1 (fun _ =>
  bind p_H (fun hour => bind (lit ":") (fun _ =>
  bind p_M (fun minute => bind (lit ":") (fun _ =>
  bind p_S (fun second => ret (year, month, day, hour, minute, second)))))))))))).

Definition is_leap (y : Z) : bool :=
  (y mod 4 =? 0) && (negb (y mod 100 =? 0) || (y mod 400 =? 0)).

Definition days_in_month (y m : Z) : Z :=
  if m =? 2 then (if is_leap y then 29 else 28)
  else if (m =? 4) || (m =? 6) || (m =? 9) || (m =? 11) then 30 else 31.

Definition days_before_year (y : Z) : Z :=
  let y1 := y - 1 in y1 * 365 + y1 / 4 - y1 / 100 + y1 / 400.

Fixpoint days_before_month (y : Z) (m : nat) : Z :=
  match m with
  | O => 0
  | S m' =>
      match m' with
      | O => 0
      | S _ => days_before_month y m' + days_in_month y (Z.of_nat m')
      end
  end.

(** [date(y, m, d).toordinal()]: 1 for 0001-01-01. *)
Definition ymd2ord (y m d : Z) : Z :=
  days_before_year y + days_before_month y (Z.to_nat m) + d.

Definition make (f : Z * Z * Z * Z * Z * Z) : option datetime :=
  let '(year, month, day, hour, minute, second) := f in
  if (1 <=? year) && (day <=? days_in_month year month) && (second <=? 59)
  then Some (((ymd2ord year month day - 1) * 86400
              + hour * 3600 + minute * 60 + second) * 1000000)
  else None.

(** [datetime.strptime(text, "%Y-%m-%d %H:%M:%S")]. *)
Definition parse (text : string) : option datetime :=
  match fields (list_ascii_of_string text) with
  | (f, []) :: _ => make f
  | _ => None
  end.

(** [datetime.strptime] as the program uses it; the program passes no
    other format. *)
Definition strptime (text format : string) : option datetime :=
  if String.eqb format "%Y-%m-%d %H:%M:%S" then parse text else None.

End Strptime.

(** ** The order of the specification

    Lexicographic order on the character codes: a proper prefix comes first,
    otherwise the first position where the strings differ decides. *)

Inductive lex_lt : string -> string -> Prop :=
| lex_lt_prefix c s : lex_lt EmptyString (String c s)
| lex_lt_head c1 c2 s1 s2 :
    (Str.code c1 < Str.code c2)%N -> lex_lt (String c1 s1) (String c2 s2)
| lex_lt_tail c s1 s2 : lex_lt s1 s2 -> lex_lt (String c s1) (String c s2).

Definition lex_le (a b : string) : Prop := a = b \/ lex_lt a b.

(** ** Example hosts *)

Definition entry (n : string) : DirEntry := {| name := n; is_file := true |}.
Definition subfolder (n : string) : DirEntry := {| name := n; is_file := false |}.

(** A folder [pics] with the given children, where every command succeeds. *)
Definition host_with (children : list DirEntry) (run : command -> run_outcome)
  : Host :=
  {| isdir := fun p => String.eqb p "pics";
     scandir := fun _ => inr children;
     now := 63839664000123456;
     strptime := Strptime.strptime;
     subprocess_run := run |}.

Definition all_succeed : command -> run_outcome := fun _ => Completed.

(** A host without the [SetFile] program. *)
Definition no_SetFile : command -> run_outcome := fun c =>
  match c with
  | Touch _ _ => Completed
  | SetFile _ _ => NotStarted FileNotFoundError
  end.

(** A host where the commands on one path exit with status 1. *)
Definition touch_fails_on (p : string) : command -> run_outcome := fun c =>
  match c with
  | Touch _ q => if String.eqb p q then NonZeroExit 1 else Completed
  | SetFile _ _ => Completed
  end.

Definition SetFile_fails_on (p : string) : command -> run_outcome := fun c =>
  match c with
  | Touch _ _ => Completed
  | SetFile _ q => if String.eqb p q then NonZeroExit 1 else Completed
  end.

Definition abc : list DirEntry :=
  [entry "b.jpg"; entry "a.jpg"; entry "c.png"].

(** 2024-01-01 00:00:00. *)
Definition new_year_2024 : datetime := 63839664000000000.

(** ** Vocabulary of the statements *)

(** The date of the file at position [j] (from 0) when the first file gets
    [start]: [start + j * increment_minutes] minutes. *)
Definition date_at (start : datetime) (increment_minutes : Z) (j : nat)
  : datetime :=
  start + Z.of_nat j * (increment_minutes * Datetime.US_PER_MINUTE).

(** The two calls of each file of [files], with the dates of [date_at]. *)
Definition planned_calls (start : datetime) (increment_minutes : Z)
    (files : list string) : list command :=
  concat (imap (fun j f => [Touch (date_at start increment_minutes j) f;
                            SetFile (date_at start increment_minutes j) f])
            files).

(** What the loop logs for the file at position [j] when both calls succeed. *)
Definition update_events (total_files : nat) (start : datetime)
    (increment_minutes : Z) (j : nat) (f : string) : list event :=
  let d := date_at start increment_minutes j in
  [Ran (Touch d f) Completed; Ran (SetFile d f) Completed;
   Print (Updated (S j) total_files (Path.basename f) d)].

(** The three lines printed before the loop. *)
Definition header (total_files : nat) (start : datetime)
    (increment_minutes : Z) : list event :=
  [Print (Found total_files); Print (StartingDate start);
   Print (IncrementIs increment_minutes)].

(** The paths handed to [touch], in the order of the calls. *)
Definition touched (r : result) : list string :=
  omap (fun c => match c with Touch _ p => Some p | SetFile _ _ => None end)
    (calls r).

(** An entry of an extension set that [str.lower] would change: it has an
    upper-case character. *)
Definition has_upper (x : string) : Prop := Str.lower x <> x.

(** The outcome "no image files": one line, no call, a plain return. *)
Definition empty_input_outcome : result :=
  print NoImageFiles ;; finish Returned.

(** [evs] happen, then [r]. *)
Definition prepend (evs : list event) (r : result) : result :=
  {| log := evs ++ log r; exit := exit r |}.

(** ** main *)

(** What the user answers in the three dialogs of [main].  The folder dialog
    answers the empty string when it is cancelled, the two others answer
    [None]. *)
Record Dialogs : Type := {
  askdirectory : string;
  askstring : option string;
  askinteger : option Z;
}.

(** The dialogs and message boxes [main] opens. *)
Inductive gui_event : Type :=
| AskDirectory
| ShowInfo (title text : string)
| AskString
| AskInteger.

(** The windows [main] has opened, and the run of [update_image_dates] when
    it starts one. *)
Record main_result : Type := { gui : list gui_event; started : option result }.

Definition main (h : Host) (ui : Dialogs) : main_result :=
  let folder_path := askdirectory ui in
  if String.eqb folder_path "" then
    {| gui := [AskDirectory; ShowInfo "Info" "No folder selected. Exiting."];
       started := None |}
  else
    let start_date_str := askstring ui in
    let increment_minutes := askinteger ui in
    match start_date_str, increment_minutes with
    | Some s, Some n =>
        {| gui := [AskDirectory; AskString; AskInteger];
           started :=
             Some (update_image_dates h folder_path
                     (if String.eqb s "" then None else Some (Text s))
                     (if n =? 0 then 60 else n)
                     None) |}
    | _, _ => {| gui := [AskDirectory; AskString; AskInteger]; started := None |}
    end.

(** ** Vocabulary of the further properties *)

(** The host [h] with another answer of [os.scandir]. *)
Definition with_listing (h : Host) (children : list DirEntry) : Host :=
  {| isdir := isdir h;
     scandir := fun _ => inr children;
     now := now h;
     strptime := strptime h;
     subprocess_run := subprocess_run h |}.

(** No command follows a command that did not succeed. *)
Definition stops_at_failure (l : list event) : Prop :=
  forall pre c o post,
    l = pre ++ Ran c o :: post -> o <> Completed -> omap ran post = [].

(** The extensions [os.path.splitext] can give: nothing, or a dot and a
    suffix without a dot. *)
Definition ext_shaped (x : string) : Prop :=
  x = EmptyString
  \/ exists suf, x = String "." suf
                 /\ forall i, String.get i suf <> Some "."%char.

Definition no_slash (n : string) : Prop :=
  forall i, String.get i n <> Some "/"%char.

(** The timestamp-setting calls of [main]: those of the run it starts. *)
Definition main_calls (m : main_result) : list command :=
  match started m with
  | Some r => calls r
  | None => []
  end.

(** The lines the loop can print. *)
Definition loop_message (m : message) : Prop :=
  match m with
  | Updated _ _ _ _ | ErrorUpdating _ _ | SetFileNotFoundNote | InstallHint =>
      True
  | _ => False
  end.

(** * Verification *)

(** ** The library functions on examples *)

Example splitext_plain : Path.splitext "a.jpg" = ("a", ".jpg").
Proof. reflexivity. Qed.
Example splitext_hidden : Path.splitext ".jpg" = (".jpg", "").
Proof. reflexivity. Qed.
Example splitext_dots : Path.splitext "..jpg" = ("..jpg", "").
Proof. reflexivity. Qed.
Example splitext_two : Path.splitext "a..jpg" = ("a.", ".jpg").
Proof. reflexivity. Qed.
Example splitext_trailing : Path.splitext "a." = ("a", ".").
Proof. reflexivity. Qed.
Example splitext_dir : Path.splitext "a.b/.jpg" = ("a.b/.jpg", "").
Proof. reflexivity. Qed.
Example splitext_none : Path.splitext "README" = ("README", "").
Proof. reflexivity. Qed.
Example basename_ex : Path.basename "d/e/a.jpg" = "a.jpg".
Proof. reflexivity. Qed.
Example join_ex : Path.join "d" "a.jpg" = "d/a.jpg" /\ Path.join "d/" "a.jpg" = "d/a.jpg".
Proof. split; reflexivity. Qed.
Example lower_ex : Str.lower ".JPG" = ".jpg".
Proof. reflexivity. Qed.
Example contains_ex : Str.contains "SetFile" "/x/SetFile/a.jpg" = true /\ Str.contains "SetFile" "/x/a.jpg" = false.
Proof. split; reflexivity. Qed.

(** ** The order of [str] is the lexicographic order on character codes *)

Section StringOrder.

Lemma compare_refl (s : string) : String.compare s s = Eq.
Proof.
  induction s as [|c s IH]; simpl; [reflexivity|].
  unfold Ascii.compare. rewrite N.compare_refl. exact IH.
Qed.

Lemma compare_Eq_iff (a b : string) : String.compare a b = Eq <-> a = b.
Proof.
  split; [apply String.compare_eq_iff|]. intros ->. apply compare_refl.
Qed.

Lemma lex_lt_cons_inv c1 c2 s1 s2 :
  lex_lt (String c1 s1) (String c2 s2) ->
  (Str.code c1 < Str.code c2)%N \/ (c1 = c2 /\ lex_lt s1 s2).
Proof. inversion 1; subst; auto. Qed.

Lemma compare_Lt_iff (a b : string) : String.compare a b = Lt <-> lex_lt a b.
Proof.
  revert b. induction a as [|c1 a IH]; intros [|c2 b]; simpl.
  - split; [discriminate | inversion 1].
  - split; [intros _; constructor | reflexivity].
  - split; [discriminate | inversion 1].
  - unfold Ascii.compare.
    destruct (N.compare_spec (N_of_ascii c1) (N_of_ascii c2)) as [E|L|G].
    + assert (c1 = c2) as ->.
      { rewrite <- (ascii_N_embedding c1), <- (ascii_N_embedding c2).
        now rewrite E. }
      rewrite IH. split; [apply lex_lt_tail|].
      intros H. apply lex_lt_cons_inv in H as [H|[_ H]]; [|exact H].
      unfold Str.code in H. lia.
    + split; [intros _; now apply lex_lt_head | reflexivity].
    + split; [discriminate|].
      intros H. apply lex_lt_cons_inv in H as [H|[-> _]];
        unfold Str.code in *; lia.
Qed.

Lemma lex_lt_irrefl (a : string) : ~ lex_lt a a.
Proof.
  intros H. apply compare_Lt_iff in H. rewrite compare_refl in H.
  discriminate.
Qed.

Lemma lex_lt_trans (a b c : string) : lex_lt a b -> lex_lt b c -> lex_lt a c.
Proof.
  intros Hab. revert c.
  induction Hab as [x s|x y s t Hxy|x s t Hst IH]; intros c Hbc.
  - inversion Hbc; subst; constructor.
  - inversion Hbc; subst.
    + apply lex_lt_head. lia.
    + now apply lex_lt_head.
  - inversion Hbc; subst.
    + now apply lex_lt_head.
    + apply lex_lt_tail. now apply IH.
Qed.

Lemma str_le_lex_le (a b : string) : str_le a b <-> lex_le a b.
Proof.
  unfold str_le, lex_le, String.leb.
  rewrite <- compare_Lt_iff, <- compare_Eq_iff.
  destruct (String.compare a b); simpl; intuition discriminate.
Qed.

Lemma lex_le_trans (a b c : string) : lex_le a b -> lex_le b c -> lex_le a c.
Proof.
  intros [->|Hab] [->|Hbc]; unfold lex_le; eauto using lex_lt_trans.
Qed.

Lemma lex_le_antisym (a b : string) : lex_le a b -> lex_le b a -> a = b.
Proof.
  intros [Hab|Hab] [Hba|Hba]; try congruence.
  exfalso. eapply lex_lt_irrefl, lex_lt_trans; eassumption.
Qed.

#[export] Instance str_le_dec : RelDecision str_le.
Proof. intros a b. unfold str_le. apply _. Defined.

#[export] Instance str_le_total : Total str_le.
Proof.
  intros a b. unfold str_le.
  destruct (String.leb_total a b) as [H|H]; rewrite H; simpl; auto.
Qed.

#[export] Instance str_le_transitive : Transitive str_le.
Proof.
  intros a b c. rewrite !str_le_lex_le. apply lex_le_trans.
Qed.

End StringOrder.

(** ** The scan *)

Lemma collect_app folder exts entries acc :
  collect folder exts entries acc
  = acc ++ map (entry_path folder) (List.filter (is_image exts) entries).
Proof.
  revert acc. induction entries as [|e entries IH]; intros acc; simpl.
  - now rewrite app_nil_r.
  - destruct (is_image exts e); simpl; rewrite IH; [|reflexivity].
    now rewrite <- app_assoc.
Qed.

Lemma collect_spec folder exts entries :
  collect folder exts entries []
  = map (entry_path folder) (List.filter (is_image exts) entries).
Proof. apply collect_app. Qed.

Lemma sort_Permutation (l : list string) : sort l ≡ₚ l.
Proof. apply merge_sort_Permutation. Qed.

Lemma sort_StronglySorted (l : list string) : StronglySorted lex_le (sort l).
Proof.
  assert (StronglySorted str_le (sort l)) as H
    by apply (StronglySorted_merge_sort str_le).
  induction H as [|x xs Hs IH Hall]; constructor; [exact IH|].
  eapply Forall_impl; [exact Hall|]. intros y. apply str_le_lex_le.
Qed.

Lemma sorted_images_Permutation folder exts entries :
  sorted_images folder exts entries
  ≡ₚ map (entry_path folder) (List.filter (is_image exts) entries).
Proof. unfold sorted_images. now rewrite sort_Permutation, collect_spec. Qed.

(** ** Dates *)

Lemma add_minutes_inr (d d' : datetime) (m : Z) :
  Datetime.add_minutes d m = inr d' -> d' = d + m * Datetime.US_PER_MINUTE.
Proof.
  unfold Datetime.add_minutes, Datetime.timedelta_minutes, Datetime.add.
  destruct (_ <? _); [discriminate|].
  destruct (Datetime.in_range _); [|discriminate].
  now intros [= <-].
Qed.

Lemma date_at_0 (d : datetime) (m : Z) : date_at d m 0 = d.
Proof. unfold date_at. lia. Qed.

Lemma date_at_S (d : datetime) (m : Z) (j : nat) :
  date_at d m (S j) = date_at d m j + m * Datetime.US_PER_MINUTE.
Proof. unfold date_at. lia. Qed.

Lemma date_at_shift (d : datetime) (m : Z) (j : nat) :
  date_at (d + m * Datetime.US_PER_MINUTE) m j = date_at d m (S j).
Proof. unfold date_at. lia. Qed.

Lemma date_at_spacing (d : datetime) (m : Z) (j : nat) :
  date_at d m (S j) - date_at d m j = m * Datetime.US_PER_MINUTE.
Proof. rewrite date_at_S. lia. Qed.

Lemma whole_seconds_step (d : datetime) (m : Z) :
  Datetime.whole_seconds (d + m * Datetime.US_PER_MINUTE)
  = Datetime.whole_seconds d + m * 60.
Proof.
  unfold Datetime.whole_seconds, Datetime.US_PER_MINUTE.
  replace (d + m * 60000000) with (d + (m * 60) * 1000000) by lia.
  now rewrite Z.div_add by lia.
Qed.

Lemma date_at_increasing (d : datetime) (m : Z) (i j : nat) :
  0 < m -> (i < j)%nat -> date_at d m i < date_at d m j.
Proof. unfold date_at, Datetime.US_PER_MINUTE. intros Hm Hij. nia. Qed.

(** ** The loop *)

Lemma planned_calls_cons (d : datetime) (m : Z) (f : string) (fs : list string) :
  planned_calls d m (f :: fs)
  = Touch d f :: SetFile d f
      :: planned_calls (d + m * Datetime.US_PER_MINUTE) m fs.
Proof.
  unfold planned_calls. rewrite imap_cons. simpl. rewrite date_at_0.
  do 3 f_equal. apply imap_ext. intros j x _. simpl.
  now rewrite date_at_shift.
Qed.

Lemma planned_calls_length (d : datetime) (m : Z) (fs : list string) :
  length (planned_calls d m fs) = (2 * length fs)%nat.
Proof.
  revert d. induction fs as [|f fs IH]; intros d; [reflexivity|].
  rewrite planned_calls_cons. simpl. rewrite IH. lia.
Qed.

Lemma planned_calls_lookup (d : datetime) (m : Z) (fs : list string)
    (j : nat) (f : string) :
  fs !! j = Some f ->
  planned_calls d m fs !! (2 * j)%nat = Some (Touch (date_at d m j) f)
  /\ planned_calls d m fs !! (2 * j + 1)%nat = Some (SetFile (date_at d m j) f).
Proof.
  revert d j. induction fs as [|x fs IH]; intros d j Hj; [discriminate|].
  rewrite planned_calls_cons. destruct j as [|j]; simpl in Hj.
  - injection Hj as ->. rewrite date_at_0. split; reflexivity.
  - destruct (IH (d + m * Datetime.US_PER_MINUTE) j Hj) as [H1 H2].
    rewrite date_at_shift in H1, H2.
    replace (2 * S j)%nat with (S (S (2 * j))) by lia.
    replace (S (S (2 * j)) + 1)%nat with (S (S (2 * j + 1))) by lia.
    split; assumption.
Qed.

Lemma on_error_log (f : string) (e : CalledProcessError) :
  log (on_error f e)
  = Print (ErrorUpdating f e)
      :: (if mentions_SetFile e
          then [Print SetFileNotFoundNote; Print InstallHint] else []).
Proof. unfold on_error. now destruct (mentions_SetFile e). Qed.

Lemma on_error_exit (f : string) (e : CalledProcessError) :
  exit (on_error f e) = if mentions_SetFile e then Broke else Returned.
Proof. unfold on_error. now destruct (mentions_SetFile e). Qed.

Lemma on_error_calls (f : string) (e : CalledProcessError) :
  calls (on_error f e) = [].
Proof. unfold calls. rewrite on_error_log. now destruct (mentions_SetFile e). Qed.

Lemma calls_emit_Ran (c : command) (o : run_outcome) (r : result) :
  calls (emit (Ran c o) r) = c :: calls r.
Proof. reflexivity. Qed.

Lemma calls_emit_Print (m : message) (r : result) :
  calls (emit (Print m) r) = calls r.
Proof. reflexivity. Qed.

Lemma exit_emit (ev : event) (r : result) : exit (emit ev r) = exit r.
Proof. reflexivity. Qed.

(** One turn of the loop, by the outcomes of its two commands. *)
Lemma process_cons (h : Host) (m : Z) (total i : nat) (d : datetime)
    (f : string) (fs : list string) :
  process h m total i d (f :: fs)
  = emit (Ran (Touch d f) (subprocess_run h (Touch d f)))
      match subprocess_run h (Touch d f) with
      | Completed =>
          emit (Ran (SetFile d f) (subprocess_run h (SetFile d f)))
            match subprocess_run h (SetFile d f) with
            | Completed =>
                print (Updated i total (Path.basename f) d) ;;
                match Datetime.add_minutes d m with
                | inl e => finish (Raised e)
                | inr d' => process h m total (S i) d' fs
                end
            | NonZeroExit rc =>
                on_error f {| cmd := SetFile d f; returncode := rc |}
            | NotStarted e => finish (Raised e)
            end
      | NonZeroExit rc => on_error f {| cmd := Touch d f; returncode := rc |}
      | NotStarted e => finish (Raised e)
      end.
Proof. reflexivity. Qed.

Lemma planned_calls_date (d : datetime) (m : Z) (fs : list string) (k : nat)
    (c : command) :
  planned_calls d m fs !! k = Some c -> command_date c = date_at d m (k / 2).
Proof.
  revert d k. induction fs as [|x fs IH]; intros d k Hk; [discriminate|].
  rewrite planned_calls_cons in Hk.
  destruct k as [|[|k]]; simpl in Hk.
  - injection Hk as <-. simpl. now rewrite date_at_0.
  - injection Hk as <-. simpl. now rewrite date_at_0.
  - apply IH in Hk. rewrite Hk, date_at_shift. f_equal.
    change (S (S k)) with (2 + k)%nat.
    replace (2 + k)%nat with (k + 1 * 2)%nat by lia.
    rewrite Nat.div_add by lia. lia.
Qed.

(** The calls of the loop are always an initial part of the plan, and all
    of it when the loop runs to its end. *)
Lemma process_calls (h : Host) (m : Z) (total i : nat) (d : datetime)
    (files : list string) :
  calls (process h m total i d files) `prefix_of` planned_calls d m files
  /\ (exit (process h m total i d files) = Finished ->
      calls (process h m total i d files) = planned_calls d m files).
Proof.
  revert i d. induction files as [|f fs IH]; intros i d.
  - split; [apply prefix_nil | reflexivity].
  - rewrite planned_calls_cons, process_cons, calls_emit_Ran, exit_emit.
    destruct (subprocess_run h (Touch d f)) as [|rc|e].
    + rewrite calls_emit_Ran, exit_emit.
      destruct (subprocess_run h (SetFile d f)) as [|rc|e].
      * rewrite calls_emit_Print, exit_emit.
        destruct (Datetime.add_minutes d m) as [e|d'] eqn:Hadd.
        -- split; [|discriminate].
           do 2 apply prefix_cons. apply prefix_nil.
        -- apply add_minutes_inr in Hadd as ->.
           destruct (IH (S i) (d + m * Datetime.US_PER_MINUTE)) as [Hp Hf].
           split; [now do 2 apply prefix_cons|].
           intros Hfin. f_equal. f_equal. now apply Hf.
      * rewrite on_error_calls, on_error_exit.
        split; [do 2 apply prefix_cons; apply prefix_nil|].
        destruct (mentions_SetFile _); discriminate.
      * split; [do 2 apply prefix_cons; apply prefix_nil|discriminate].
    + rewrite on_error_calls, on_error_exit.
      split; [apply prefix_cons, prefix_nil|].
      destruct (mentions_SetFile _); discriminate.
    + split; [apply prefix_cons, prefix_nil|discriminate].
Qed.

Lemma touched_emit_Touch (d : datetime) (p : string) (o : run_outcome)
    (r : result) :
  touched (emit (Ran (Touch d p) o) r) = p :: touched r.
Proof. reflexivity. Qed.

Lemma touched_emit_SetFile (d : datetime) (p : string) (o : run_outcome)
    (r : result) :
  touched (emit (Ran (SetFile d p) o) r) = touched r.
Proof. reflexivity. Qed.

Lemma touched_emit_Print (m : message) (r : result) :
  touched (emit (Print m) r) = touched r.
Proof. reflexivity. Qed.

Lemma touched_on_error (f : string) (e : CalledProcessError) :
  touched (on_error f e) = [].
Proof. unfold touched. now rewrite on_error_calls. Qed.

(** The paths given to [touch] are an initial part of the list of files. *)
Lemma process_touched (h : Host) (m : Z) (total i : nat) (d : datetime)
    (files : list string) :
  touched (process h m total i d files) `prefix_of` files.
Proof.
  revert i d. induction files as [|f fs IH]; intros i d.
  - apply prefix_nil.
  - rewrite process_cons, touched_emit_Touch. apply prefix_cons.
    destruct (subprocess_run h (Touch d f)) as [|rc|e].
    + rewrite touched_emit_SetFile.
      destruct (subprocess_run h (SetFile d f)) as [|rc|e].
      * rewrite touched_emit_Print.
        destruct (Datetime.add_minutes d m) as [e|d'];
          [apply prefix_nil | apply IH].
      * rewrite touched_on_error. apply prefix_nil.
      * apply prefix_nil.
    + rewrite touched_on_error. apply prefix_nil.
    + apply prefix_nil.
Qed.

(** ** The whole function *)

Lemma sort_nil : sort [] = [].
Proof. reflexivity. Qed.

Lemma sorted_images_nil folder exts entries :
  (forall e, e ∈ entries -> is_image exts e = false) ->
  sorted_images folder exts entries = [].
Proof.
  intros Hnone. unfold sorted_images. rewrite collect_spec.
  replace (List.filter (is_image exts) entries) with (@nil DirEntry);
    [reflexivity|].
  symmetry. induction entries as [|e entries IH]; [reflexivity|]. simpl.
  rewrite (Hnone e) by apply list_elem_of_here.
  apply IH. intros e' He'. apply Hnone. now apply list_elem_of_further.
Qed.

(** With a valid folder, a positive increment, a readable listing, at least
    one image and a start date, the function prints the header and enters
    the loop. *)
Lemma run_loop (h : Host) folder start inc exts entries d0 :
  isdir h folder = true ->
  0 < inc ->
  scandir h folder = inr entries ->
  resolve_start h start = Some d0 ->
  sorted_images folder (default IMAGE_EXTENSIONS exts) entries <> [] ->
  update_image_dates h folder start inc exts
  = let files := sorted_images folder (default IMAGE_EXTENSIONS exts) entries in
    prepend (header (length files) d0 inc)
      (process h inc (length files) 1 d0 files).
Proof.
  intros Hdir Hinc Hscan Hstart Hne. unfold update_image_dates.
  rewrite Hdir. simpl. destruct (Z.leb_spec inc 0) as [?|_]; [lia|].
  rewrite Hscan.
  destruct (sorted_images folder (default IMAGE_EXTENSIONS exts) entries)
    as [|f fs] eqn:Hfiles; [congruence|].
  rewrite Hstart. reflexivity.
Qed.

(** A run that ends with [Finished] has passed every check. *)
Lemma Finished_inv (h : Host) folder start inc exts :
  exit (update_image_dates h folder start inc exts) = Finished ->
  isdir h folder = true /\ 0 < inc
  /\ exists entries d0,
       scandir h folder = inr entries
       /\ resolve_start h start = Some d0
       /\ sorted_images folder (default IMAGE_EXTENSIONS exts) entries <> [].
Proof.
  unfold update_image_dates. destruct (isdir h folder); simpl; [|discriminate].
  destruct (Z.leb_spec inc 0) as [?|Hinc]; [discriminate|].
  destruct (scandir h folder) as [e|entries]; [discriminate|].
  destruct (sorted_images folder (default IMAGE_EXTENSIONS exts) entries)
    as [|f fs] eqn:Hfiles; [discriminate|].
  destruct (resolve_start h start) as [d0|]; [|discriminate].
  intros _. split; [reflexivity|]. split; [exact Hinc|].
  exists entries, d0. rewrite Hfiles. auto.
Qed.

Lemma calls_prepend_header (n : nat) (d : datetime) (m : Z) (r : result) :
  calls (prepend (header n d m) r) = calls r.
Proof. reflexivity. Qed.

Lemma touched_prepend_header (n : nat) (d : datetime) (m : Z) (r : result) :
  touched (prepend (header n d m) r) = touched r.
Proof. reflexivity. Qed.

(** No call is made unless the loop is entered. *)
Lemma calls_nil_or_loop (h : Host) folder start inc exts :
  calls (update_image_dates h folder start inc exts) = []
  \/ exists entries d0,
       isdir h folder = true /\ 0 < inc
       /\ scandir h folder = inr entries
       /\ resolve_start h start = Some d0
       /\ sorted_images folder (default IMAGE_EXTENSIONS exts) entries <> [].
Proof.
  unfold update_image_dates. destruct (isdir h folder); simpl; [|now left].
  destruct (Z.leb_spec inc 0) as [?|Hinc]; [now left|].
  destruct (scandir h folder) as [e|entries]; [now left|].
  destruct (sorted_images folder (default IMAGE_EXTENSIONS exts) entries)
    as [|f fs] eqn:Hfiles; [now left|].
  destruct (resolve_start h start) as [d0|]; [|now left].
  right. exists entries, d0. rewrite Hfiles. auto.
Qed.

(** C1. When a run completes on the [n] matched files, the calls it made
    are exactly the two calls of every file, in sorted order, and the file at
    sorted position [j] (from 0) carries the date [start + j * increment]
    minutes in both; the dates of the calls of consecutive files (the calls
    at [k] and [k + 2]) differ by exactly the increment, also when they are
    read to the second as the commands get them, and strictly increase. *)
Theorem assigned_dates_are_start_plus_multiples (h : Host) folder start inc
    exts entries d0 :
  scandir h folder = inr entries ->
  resolve_start h start = Some d0 ->
  exit (update_image_dates h folder start inc exts) = Finished ->
  calls (update_image_dates h folder start inc exts)
  = planned_calls d0 inc
      (sorted_images folder (default IMAGE_EXTENSIONS exts) entries)
  /\ (forall (j : nat) (f : string),
        sorted_images folder (default IMAGE_EXTENSIONS exts) entries !! j
        = Some f ->
        calls (update_image_dates h folder start inc exts) !! (2 * j)%nat
        = Some (Touch (d0 + Z.of_nat j * (inc * 60000000)) f)
        /\ calls (update_image_dates h folder start inc exts) !! (2 * j + 1)%nat
           = Some (SetFile (d0 + Z.of_nat j * (inc * 60000000)) f))
  /\ (forall (k : nat) (c c' : command),
        calls (update_image_dates h folder start inc exts) !! k = Some c ->
        calls (update_image_dates h folder start inc exts) !! (k + 2)%nat
        = Some c' ->
        command_date c' - command_date c = inc * 60000000
        /\ Datetime.whole_seconds (command_date c')
           - Datetime.whole_seconds (command_date c) = inc * 60
        /\ command_date c < command_date c').
Proof.
  intros Hscan Hstart Hfin.
  destruct (Finished_inv _ _ _ _ _ Hfin)
    as (Hdir & Hinc & entries' & d0' & Hscan' & Hstart' & Hne).
  assert (entries' = entries) as -> by congruence.
  assert (d0' = d0) as -> by congruence.
  assert (calls (update_image_dates h folder start inc exts)
          = planned_calls d0 inc
              (sorted_images folder (default IMAGE_EXTENSIONS exts) entries))
    as Hcalls.
  { rewrite (run_loop h folder start inc exts entries d0) in Hfin |- * by assumption.
    cbv zeta in *. rewrite calls_prepend_header.
    now apply process_calls. }
  split; [exact Hcalls|]. split.
  - intros j f Hj. rewrite Hcalls. now apply planned_calls_lookup.
  - intros k c c' Hc Hc'. rewrite Hcalls in Hc, Hc'.
    apply planned_calls_date in Hc, Hc'. rewrite Hc, Hc'.
    replace ((k + 2) / 2)%nat with (S (k / 2)).
    + split; [apply date_at_spacing|]. split.
      * rewrite date_at_S, whole_seconds_step. lia.
      * apply date_at_increasing; [exact Hinc|lia].
    + replace (k + 2)%nat with (k + 1 * 2)%nat by lia.
      rewrite Nat.div_add by lia. lia.
Qed.

(** ** Failure of a command *)

Lemma prepend_nil (r : result) : prepend [] r = r.
Proof. now destruct r. Qed.

Lemma prepend_app (evs evs' : list event) (r : result) :
  prepend evs (prepend evs' r) = prepend (evs ++ evs') r.
Proof. unfold prepend. simpl. now rewrite app_assoc. Qed.

Lemma emit_prepend (ev : event) (r : result) : emit ev r = prepend [ev] r.
Proof. reflexivity. Qed.

(** While both commands succeed and the date can be advanced, the loop logs
    the events of [update_events] file after file. *)
Lemma process_app (h : Host) (m : Z) (total : nat) (d0 : datetime) (k : nat)
    (pre rest : list string) :
  (forall j f, pre !! j = Some f ->
     subprocess_run h (Touch (date_at d0 m (k + j)) f) = Completed
     /\ subprocess_run h (SetFile (date_at d0 m (k + j)) f) = Completed
     /\ Datetime.add_minutes (date_at d0 m (k + j)) m
        = inr (date_at d0 m (S (k + j)))) ->
  process h m total (S k) (date_at d0 m k) (pre ++ rest)
  = prepend
      (concat (imap (fun j f => update_events total d0 m (k + j) f) pre))
      (process h m total (S (k + length pre))
         (date_at d0 m (k + length pre)) rest).
Proof.
  revert k. induction pre as [|f pre IH]; intros k Hok.
  - simpl. rewrite prepend_nil, Nat.add_0_r. reflexivity.
  - destruct (Hok 0%nat f eq_refl) as (Ht & Hs & Ha).
    rewrite Nat.add_0_r in Ht, Hs, Ha.
    change ((f :: pre) ++ rest) with (f :: (pre ++ rest)).
    rewrite process_cons, Ht, Hs, Ha, (IH (S k)).
    + rewrite imap_cons. simpl concat. rewrite Nat.add_0_r. simpl length.
      replace (k + S (length pre))%nat with (S k + length pre)%nat by lia.
      replace (imap ((fun j f0 => update_events total d0 m (k + j) f0) ∘ S) pre)
        with (imap (fun j f0 => update_events total d0 m (S k + j) f0) pre).
      * reflexivity.
      * apply imap_ext. intros j x _. simpl. f_equal. lia.
    + intros j x Hj. specialize (Hok (S j) x Hj).
      replace (S k + j)%nat with (k + S j)%nat by lia. exact Hok.
Qed.

Lemma calls_update_events (total : nat) (d0 : datetime) (m : Z) (k : nat)
    (pre : list string) :
  omap ran (concat (imap (fun j f => update_events total d0 m (k + j) f) pre))
  = concat (imap (fun j f => [Touch (date_at d0 m (k + j)) f;
                              SetFile (date_at d0 m (k + j)) f]) pre).
Proof.
  revert k. induction pre as [|f pre IH]; intros k; [reflexivity|].
  rewrite !imap_cons. cbn [concat]. rewrite omap_app.
  f_equal.
  transitivity
    (omap ran (concat (imap (fun j f0 => update_events total d0 m (S k + j) f0)
                         pre))).
  - do 2 f_equal. apply imap_ext. intros j x _. simpl. f_equal. lia.
  - rewrite IH. f_equal. apply imap_ext. intros j x _. simpl.
    now replace (S (k + j))%nat with (k + S j)%nat by lia.
Qed.

Lemma calls_updates (total : nat) (d0 : datetime) (m : Z) (pre : list string) :
  omap ran (concat (imap (update_events total d0 m) pre))
  = planned_calls d0 m pre.
Proof. exact (calls_update_events total d0 m 0 pre). Qed.

Lemma log_prepend (evs : list event) (r : result) :
  log (prepend evs r) = evs ++ log r.
Proof. reflexivity. Qed.

Lemma exit_prepend (evs : list event) (r : result) :
  exit (prepend evs r) = exit r.
Proof. reflexivity. Qed.

Lemma calls_prepend (evs : list event) (r : result) :
  calls (prepend evs r) = omap ran evs ++ calls r.
Proof. unfold calls, prepend. simpl. apply omap_app. Qed.

(** The first command that does not succeed ends the loop: the files before
    it are complete, the command is the last one, and what follows in the
    log depends on how it failed. *)
Lemma process_first_failure (h : Host) (m : Z) (total : nat) (d0 : datetime)
    (before after : list string) (B : string) (c : command) (o : run_outcome) :
  (forall j f, before !! j = Some f ->
     subprocess_run h (Touch (date_at d0 m j) f) = Completed
     /\ subprocess_run h (SetFile (date_at d0 m j) f) = Completed
     /\ Datetime.add_minutes (date_at d0 m j) m = inr (date_at d0 m (S j))) ->
  c = Touch (date_at d0 m (length before)) B
  \/ (c = SetFile (date_at d0 m (length before)) B
      /\ subprocess_run h (Touch (date_at d0 m (length before)) B) = Completed) ->
  subprocess_run h c = o ->
  o <> Completed ->
  process h m total 1 d0 (before ++ B :: after)
  = prepend
      (concat (imap (update_events total d0 m) before)
       ++ match c with
          | Touch _ _ => []
          | SetFile d p => [Ran (Touch d p) Completed]
          end
       ++ [Ran c o])
      match o with
      | Completed => finish Finished
      | NonZeroExit rc => on_error B {| cmd := c; returncode := rc |}
      | NotStarted e => finish (Raised e)
      end.
Proof.
  intros Hok Hc Ho Hfail.
  pose proof (process_app h m total d0 0 before (B :: after)) as Happ.
  rewrite date_at_0 in Happ. simpl in Happ. rewrite Happ by exact Hok.
  clear Happ. rewrite <- prepend_app. f_equal.
  change (process h m total (S (length before))
            (date_at d0 m (length before)) (B :: after)
          = prepend
              (match c with
               | Touch _ _ => []
               | SetFile d p => [Ran (Touch d p) Completed]
               end ++ [Ran c o])
              match o with
              | Completed => finish Finished
              | NonZeroExit rc => on_error B {| cmd := c; returncode := rc |}
              | NotStarted e => finish (Raised e)
              end).
  rewrite process_cons.
  destruct Hc as [->|[-> Ht]].
  - rewrite Ho. simpl app. rewrite emit_prepend. f_equal.
    destruct o; [congruence|reflexivity|reflexivity].
  - rewrite Ht, Ho. simpl app. rewrite !emit_prepend, prepend_app. f_equal.
    destruct o; [congruence|reflexivity|reflexivity].
Qed.

(** A command that exits with a status other than 0.  Let the sorted files
    be [before ++ B :: after], let both commands succeed on every file of
    [before], and let a command on [B] (the modification-time command, or the
    creation-time command after a successful modification-time command) exit
    with a status [rc] other than 0.  Then the log of the run is: the header,
    the complete updates of the files of [before], the commands on [B] up to
    the failing one, and the error line for [B]; the function ends at once,
    by [return] or [break]. *)
Lemma abort_on_first_failure (h : Host) folder start inc exts entries d0
    (before after : list string) (B : string) (c : command) (rc : Z) :
  isdir h folder = true ->
  0 < inc ->
  scandir h folder = inr entries ->
  resolve_start h start = Some d0 ->
  sorted_images folder (default IMAGE_EXTENSIONS exts) entries
  = before ++ B :: after ->
  (forall j f, before !! j = Some f ->
     subprocess_run h (Touch (date_at d0 inc j) f) = Completed
     /\ subprocess_run h (SetFile (date_at d0 inc j) f) = Completed
     /\ Datetime.add_minutes (date_at d0 inc j) inc
        = inr (date_at d0 inc (S j))) ->
  c = Touch (date_at d0 inc (length before)) B
  \/ (c = SetFile (date_at d0 inc (length before)) B
      /\ subprocess_run h (Touch (date_at d0 inc (length before)) B)
         = Completed) ->
  subprocess_run h c = NonZeroExit rc ->
  log (update_image_dates h folder start inc exts)
  = header (length (before ++ B :: after)) d0 inc
    ++ concat (imap (update_events (length (before ++ B :: after)) d0 inc)
                 before)
    ++ match c with
       | Touch _ _ => []
       | SetFile d p => [Ran (Touch d p) Completed]
       end
    ++ [Ran c (NonZeroExit rc);
        Print (ErrorUpdating B {| cmd := c; returncode := rc |})]
    ++ (if mentions_SetFile {| cmd := c; returncode := rc |}
        then [Print SetFileNotFoundNote; Print InstallHint] else [])
  /\ calls (update_image_dates h folder start inc exts)
     = planned_calls d0 inc before
       ++ match c with
          | Touch _ _ => [c]
          | SetFile d p => [Touch d p; c]
          end
  /\ exit (update_image_dates h folder start inc exts)
     = (if mentions_SetFile {| cmd := c; returncode := rc |}
        then Broke else Returned).
Proof.
  intros Hdir Hinc Hscan Hstart Hfiles Hok Hc Hrun.
  assert (update_image_dates h folder start inc exts
          = prepend
              (header (length (before ++ B :: after)) d0 inc
               ++ concat (imap (update_events (length (before ++ B :: after))
                                  d0 inc) before)
               ++ match c with
                  | Touch _ _ => []
                  | SetFile d p => [Ran (Touch d p) Completed]
                  end
               ++ [Ran c (NonZeroExit rc)])
              (on_error B {| cmd := c; returncode := rc |})) as ->.
  { rewrite (run_loop h folder start inc exts entries d0); try assumption.
    - cbv zeta. rewrite Hfiles.
      rewrite (process_first_failure h inc _ d0 before after B c
                 (NonZeroExit rc)); try assumption; [|discriminate].
      rewrite prepend_app. reflexivity.
    - rewrite Hfiles. now destruct before. }
  split; [|split].
  - rewrite log_prepend, on_error_log, <- !app_assoc. reflexivity.
  - rewrite calls_prepend, on_error_calls, app_nil_r.
    rewrite !omap_app, calls_updates. simpl.
    f_equal. now destruct c.
  - rewrite exit_prepend. apply on_error_exit.
Qed.

(** On the example folder, with a [touch] that exits with status 1 on
    [b.jpg]: [a.jpg] is updated, [touch] on [b.jpg] is the last call. *)
Lemma abort_on_first_failure_witness :
  subprocess_run (host_with abc (touch_fails_on "pics/b.jpg"))
    (Touch 63839667600000000 "pics/b.jpg") = NonZeroExit 1
  /\ calls (update_image_dates (host_with abc (touch_fails_on "pics/b.jpg"))
              "pics" (Some (Text "2024-01-01 00:00:00")) 60 None)
     = [Touch 63839664000000000 "pics/a.jpg";
        SetFile 63839664000000000 "pics/a.jpg";
        Touch 63839667600000000 "pics/b.jpg"]
  /\ exit (update_image_dates (host_with abc (touch_fails_on "pics/b.jpg"))
             "pics" (Some (Text "2024-01-01 00:00:00")) 60 None)
     = Returned.
Proof.
  split; [reflexivity|].
  assert (forall j f, ["pics/a.jpg"] !! j = Some f ->
            subprocess_run (host_with abc (touch_fails_on "pics/b.jpg"))
              (Touch (date_at new_year_2024 60 j) f) = Completed
            /\ subprocess_run (host_with abc (touch_fails_on "pics/b.jpg"))
                 (SetFile (date_at new_year_2024 60 j) f) = Completed
            /\ Datetime.add_minutes (date_at new_year_2024 60 j) 60
               = inr (date_at new_year_2024 60 (S j))) as Hok.
  { intros [|j] f Hj; [|destruct j; discriminate].
    injection Hj as <-. repeat split. }
  destruct (abort_on_first_failure
              (host_with abc (touch_fails_on "pics/b.jpg"))
              "pics" (Some (Text "2024-01-01 00:00:00")) 60 None abc
              new_year_2024 ["pics/a.jpg"] ["pics/c.png"] "pics/b.jpg"
              (Touch 63839667600000000 "pics/b.jpg") 1
              eq_refl eq_refl eq_refl eq_refl eq_refl Hok
              (or_introl eq_refl) eq_refl) as (_ & Hcalls & Hexit).
  split; [exact Hcalls | exact Hexit].
Defined.

(** On the example folder, from 2024-01-01 00:00:00 in steps of an hour. *)
Lemma assigned_dates_witness :
  exit (update_image_dates (host_with abc all_succeed) "pics"
          (Some (Text "2024-01-01 00:00:00")) 60 None) = Finished
  /\ calls (update_image_dates (host_with abc all_succeed) "pics"
              (Some (Text "2024-01-01 00:00:00")) 60 None)
     = [Touch 63839664000000000 "pics/a.jpg";
        SetFile 63839664000000000 "pics/a.jpg";
        Touch 63839667600000000 "pics/b.jpg";
        SetFile 63839667600000000 "pics/b.jpg";
        Touch 63839671200000000 "pics/c.png";
        SetFile 63839671200000000 "pics/c.png"].
Proof.
  split; [reflexivity|].
  exact (proj1 (assigned_dates_are_start_plus_multiples
                  (host_with abc all_succeed) "pics"
                  (Some (Text "2024-01-01 00:00:00")) 60 None abc
                  new_year_2024 eq_refl eq_refl eq_refl)).
Defined.

(** The example of the specification: [b.jpg], [a.jpg] and [c.png], the
    start 2024-01-01 00:00:00 and 60 minutes. *)
Example end_to_end :
  let day := 63839664000000000 in
  let hour := 3600000000 in
  printed (update_image_dates (host_with abc all_succeed) "pics"
             (Some (Text "2024-01-01 00:00:00")) 60 None)
  = [Found 3; StartingDate day; IncrementIs 60;
     Updated 1 3 "a.jpg" day;
     Updated 2 3 "b.jpg" (day + hour);
     Updated 3 3 "c.png" (day + 2 * hour)]
  /\ Strptime.parse "2024-01-01 01:00:00" = Some (day + hour)
  /\ Strptime.parse "2024-01-01 02:00:00" = Some (day + 2 * hour).
Proof. repeat split. Qed.

(** ** Exceptions *)

(** A launch failure leaves the function as an exception: the handler of the
    loop catches [CalledProcessError] only. *)
Lemma launch_failure_propagates (h : Host) folder start inc exts entries d0
    (f : string) (fs : list string) (e : exn) :
  isdir h folder = true ->
  0 < inc ->
  scandir h folder = inr entries ->
  resolve_start h start = Some d0 ->
  sorted_images folder (default IMAGE_EXTENSIONS exts) entries = f :: fs ->
  subprocess_run h (Touch d0 f) = Completed ->
  subprocess_run h (SetFile d0 f) = NotStarted e ->
  exit (update_image_dates h folder start inc exts) = Raised e
  /\ printed (update_image_dates h folder start inc exts)
     = [Found (length (f :: fs)); StartingDate d0; IncrementIs inc].
Proof.
  intros Hdir Hinc Hscan Hstart Hfiles Ht Hs.
  rewrite (run_loop h folder start inc exts entries d0); try assumption;
    [|now rewrite Hfiles].
  cbv zeta. rewrite Hfiles, process_cons, Ht, Hs. split; reflexivity.
Qed.

(** C3 (the code departs from the specification). On a host without the [SetFile]
    program, with one image in the folder: [touch] succeeds, the launch of
    [SetFile] raises [FileNotFoundError], and the exception leaves
    [update_image_dates]; no diagnostic is printed for the file. *)
Theorem missing_SetFile_raises :
  update_image_dates (host_with [entry "a.jpg"] no_SetFile) "pics"
    (Some (Text "2024-01-01 00:00:00")) 60 None
  = {| log := [Print (Found 1); Print (StartingDate 63839664000000000);
               Print (IncrementIs 60);
               Ran (Touch 63839664000000000 "pics/a.jpg") Completed;
               Ran (SetFile 63839664000000000 "pics/a.jpg")
                 (NotStarted FileNotFoundError)];
       exit := Raised FileNotFoundError |}.
Proof. vm_compute. reflexivity. Qed.

(** The date is advanced after the last file too: a start date in the last
    minutes of the year 9999 makes the sum overflow once the file is
    updated. *)
Example date_overflow_raises :
  Strptime.parse "9999-12-31 23:59:59" = Some 315537897599000000
  /\ exit (update_image_dates (host_with [entry "a.jpg"] all_succeed) "pics"
             (Some (Text "9999-12-31 23:59:59")) 1 None)
     = Raised OverflowError.
Proof. split; vm_compute; reflexivity. Qed.

(** ** Early exits *)

(** C6. When the folder is not a directory, or the increment is zero or
    negative, the function prints one error line (for the folder when it is
    not a directory, else for the increment), returns, and has issued no
    timestamp-setting call. *)
Theorem bad_config_touches_nothing (h : Host) folder start inc exts :
  isdir h folder = false \/ inc <= 0 ->
  log (update_image_dates h folder start inc exts)
  = [Print (if isdir h folder then IncrementNotPositive
            else NotADirectory folder)]
  /\ calls (update_image_dates h folder start inc exts) = []
  /\ exit (update_image_dates h folder start inc exts) = Returned.
Proof.
  intros Hbad. unfold update_image_dates.
  destruct (isdir h folder); simpl.
  - destruct (Z.leb_spec inc 0) as [_|Hpos].
    + repeat split.
    + destruct Hbad as [?|?]; [discriminate|lia].
  - repeat split.
Qed.

(** An increment of 0, and a path that is not a directory. *)
Lemma bad_config_touches_nothing_witness :
  log (update_image_dates (host_with abc all_succeed) "pics" None 0 None)
  = [Print IncrementNotPositive]
  /\ log (update_image_dates (host_with abc all_succeed) "elsewhere" None 60 None)
     = [Print (NotADirectory "elsewhere")].
Proof.
  split.
  - exact (proj1 (bad_config_touches_nothing (host_with abc all_succeed)
                    "pics" None 0 None
                    (or_intror (Z.le_refl 0)))).
  - exact (proj1 (bad_config_touches_nothing (host_with abc all_succeed)
                    "elsewhere" None 60 None (or_introl eq_refl))).
Defined.

(** C8. In a folder where no child passes the filter, no timestamp-setting
    call is issued and no exception is raised; with a positive increment the
    run is the empty-input outcome: the one line "no image files found" and
    a plain return. *)
Theorem no_matching_files_is_a_no_op (h : Host) folder start inc exts entries :
  isdir h folder = true ->
  scandir h folder = inr entries ->
  (forall e, e ∈ entries -> is_image (default IMAGE_EXTENSIONS exts) e = false) ->
  calls (update_image_dates h folder start inc exts) = []
  /\ raises (update_image_dates h folder start inc exts) = false
  /\ (0 < inc ->
      update_image_dates h folder start inc exts = empty_input_outcome).
Proof.
  intros Hdir Hscan Hnone. unfold update_image_dates.
  rewrite Hdir, Hscan, (sorted_images_nil _ _ _ Hnone). simpl.
  destruct (Z.leb_spec inc 0) as [Hle|Hpos].
  - repeat split. lia.
  - repeat split.
Qed.

(** A folder with a text file and a subfolder named like an image. *)
Lemma no_matching_files_witness :
  update_image_dates
    (host_with [entry "notes.txt"; subfolder "old.jpg"] all_succeed)
    "pics" None 60 None
  = empty_input_outcome.
Proof.
  assert (forall e, e ∈ [entry "notes.txt"; subfolder "old.jpg"] ->
            is_image (default IMAGE_EXTENSIONS None) e = false) as Hnone.
  { intros e He. apply list_elem_of_In in He.
    destruct He as [<-|[<-|[]]]; vm_compute; reflexivity. }
  exact (proj2 (proj2 (no_matching_files_is_a_no_op
                         (host_with [entry "notes.txt"; subfolder "old.jpg"]
                            all_succeed)
                         "pics" None 60 None
                         [entry "notes.txt"; subfolder "old.jpg"]
                         eq_refl eq_refl Hnone)) eq_refl).
Defined.

(** A run that enters the loop with the start date [d0] prints [d0] in its
    header, gives [d0] to [touch] for the first file of the sorted list, and
    issues calls of the schedule that starts at [d0] only. *)
Lemma run_starts_at (h : Host) folder start inc exts entries d0 :
  isdir h folder = true ->
  0 < inc ->
  scandir h folder = inr entries ->
  resolve_start h start = Some d0 ->
  sorted_images folder (default IMAGE_EXTENSIONS exts) entries <> [] ->
  printed (update_image_dates h folder start inc exts) !! 1%nat
  = Some (StartingDate d0)
  /\ (exists f,
        sorted_images folder (default IMAGE_EXTENSIONS exts) entries !! 0%nat
        = Some f
        /\ calls (update_image_dates h folder start inc exts) !! 0%nat
           = Some (Touch d0 f))
  /\ calls (update_image_dates h folder start inc exts)
     `prefix_of` planned_calls d0 inc
                   (sorted_images folder (default IMAGE_EXTENSIONS exts)
                      entries).
Proof.
  intros Hdir Hinc Hscan Hstart Hne.
  rewrite (run_loop h folder start inc exts entries d0) by assumption.
  cbv zeta. rewrite calls_prepend_header.
  split; [reflexivity|]. split; [|apply process_calls].
  destruct (sorted_images folder (default IMAGE_EXTENSIONS exts) entries)
    as [|f fs]; [congruence|].
  exists f. split; [reflexivity|].
  rewrite process_cons, calls_emit_Ran. reflexivity.
Qed.

(** C7. A start date given as text is handed to [strptime] with the format
    [%Y-%m-%d %H:%M:%S].  When the text does not parse, the run issues no
    timestamp-setting call; if it reaches the parsing step (valid folder,
    positive increment, at least one image) it prints the format error and
    returns.  When the text parses to [d], the run is the run started at
    [d]: it prints [d] as the starting date, gives [d] to [touch] for the
    first file, and all its calls are calls of the schedule that starts at
    [d].  Without a start date the same holds with the current time of the
    host in the place of [d]. *)
Theorem start_date_resolution (h : Host) folder inc exts (s : string) :
  (strptime h s "%Y-%m-%d %H:%M:%S" = None ->
     calls (update_image_dates h folder (Some (Text s)) inc exts) = []
     /\ forall entries,
          isdir h folder = true ->
          0 < inc ->
          scandir h folder = inr entries ->
          sorted_images folder (default IMAGE_EXTENSIONS exts) entries <> [] ->
          update_image_dates h folder (Some (Text s)) inc exts
          = print InvalidDateFormat ;; finish Returned)
  /\ (forall d, strptime h s "%Y-%m-%d %H:%M:%S" = Some d ->
        update_image_dates h folder (Some (Text s)) inc exts
        = update_image_dates h folder (Some (Moment d)) inc exts)
  /\ update_image_dates h folder None inc exts
     = update_image_dates h folder (Some (Moment (now h))) inc exts
  /\ (forall d entries,
        strptime h s "%Y-%m-%d %H:%M:%S" = Some d ->
        isdir h folder = true ->
        0 < inc ->
        scandir h folder = inr entries ->
        sorted_images folder (default IMAGE_EXTENSIONS exts) entries <> [] ->
        printed (update_image_dates h folder (Some (Text s)) inc exts) !! 1%nat
        = Some (StartingDate d)
        /\ (exists f,
              sorted_images folder (default IMAGE_EXTENSIONS exts) entries
                !! 0%nat = Some f
              /\ calls (update_image_dates h folder (Some (Text s)) inc exts)
                   !! 0%nat = Some (Touch d f))
        /\ calls (update_image_dates h folder (Some (Text s)) inc exts)
           `prefix_of` planned_calls d inc
                         (sorted_images folder (default IMAGE_EXTENSIONS exts)
                            entries))
  /\ (forall entries,
        isdir h folder = true ->
        0 < inc ->
        scandir h folder = inr entries ->
        sorted_images folder (default IMAGE_EXTENSIONS exts) entries <> [] ->
        printed (update_image_dates h folder None inc exts) !! 1%nat
        = Some (StartingDate (now h))
        /\ (exists f,
              sorted_images folder (default IMAGE_EXTENSIONS exts) entries
                !! 0%nat = Some f
              /\ calls (update_image_dates h folder None inc exts) !! 0%nat
                 = Some (Touch (now h) f))
        /\ calls (update_image_dates h folder None inc exts)
           `prefix_of` planned_calls (now h) inc
                         (sorted_images folder (default IMAGE_EXTENSIONS exts)
                            entries)).
Proof.
  split; [|split; [|split; [|split]]].
  - intros Hfail. split.
    + destruct (calls_nil_or_loop h folder (Some (Text s)) inc exts)
        as [Hnil|(entries & d0 & _ & _ & _ & Hstart & _)]; [exact Hnil|].
      simpl in Hstart. unfold DATE_FORMAT in Hstart. congruence.
    + intros entries Hdir Hinc Hscan Hne. unfold update_image_dates.
      rewrite Hdir, Hscan. simpl.
      destruct (Z.leb_spec inc 0) as [?|_]; [lia|].
      destruct (sorted_images folder (default IMAGE_EXTENSIONS exts) entries)
        as [|f fs]; [congruence|].
      unfold DATE_FORMAT. rewrite Hfail. reflexivity.
  - intros d Hd. unfold update_image_dates, resolve_start, DATE_FORMAT.
    rewrite Hd. reflexivity.
  - reflexivity.
  - intros d entries Hd Hdir Hinc Hscan Hne.
    apply (run_starts_at h folder (Some (Text s)) inc exts entries d);
      assumption.
  - intros entries Hdir Hinc Hscan Hne.
    now apply (run_starts_at h folder None inc exts entries (now h)).
Qed.

(** A date in another format; a date in the format of the program; no date
    on a host whose clock shows 2024-01-01 00:00:00.123456. *)
Lemma start_date_resolution_witness :
  (Strptime.strptime "01/02/2024" "%Y-%m-%d %H:%M:%S" = None
   /\ update_image_dates (host_with abc all_succeed) "pics"
        (Some (Text "01/02/2024")) 60 None
      = print InvalidDateFormat ;; finish Returned)
  /\ (Strptime.strptime "2024-01-01 00:00:00" "%Y-%m-%d %H:%M:%S"
      = Some 63839664000000000
      /\ printed (update_image_dates (host_with abc all_succeed) "pics"
                    (Some (Text "2024-01-01 00:00:00")) 60 None) !! 1%nat
         = Some (StartingDate 63839664000000000))
  /\ printed (update_image_dates (host_with abc all_succeed) "pics"
                None 60 None) !! 1%nat
     = Some (StartingDate 63839664000123456).
Proof.
  assert (sorted_images "pics" (default IMAGE_EXTENSIONS None) abc <> [])
    as Hne by (vm_compute; discriminate).
  split; [|split].
  - split; [reflexivity|].
    exact (proj2 (proj1 (start_date_resolution (host_with abc all_succeed)
                           "pics" 60 None "01/02/2024") eq_refl)
             abc eq_refl eq_refl eq_refl Hne).
  - split; [reflexivity|].
    exact (proj1 (proj1 (proj2 (proj2 (proj2
             (start_date_resolution (host_with abc all_succeed)
                "pics" 60 None "2024-01-01 00:00:00"))))
             63839664000000000 abc eq_refl eq_refl eq_refl eq_refl Hne)).
  - exact (proj1 (proj2 (proj2 (proj2 (proj2
             (start_date_resolution (host_with abc all_succeed)
                "pics" 60 None ""))))
             abc eq_refl eq_refl eq_refl Hne)).
Defined.

(** A date in the format of the program. *)
Example start_date_parsed :
  Strptime.strptime "2024-01-01 00:00:00" "%Y-%m-%d %H:%M:%S"
  = Some new_year_2024
  /\ update_image_dates (host_with abc all_succeed) "pics"
       (Some (Text "2024-01-01 00:00:00")) 60 None
     = update_image_dates (host_with abc all_succeed) "pics"
         (Some (Moment new_year_2024)) 60 None.
Proof. split; reflexivity. Qed.

(** ** The order of processing *)

(** C4. The files of a run are the matched paths, each path being the
    folder joined with the name, put in ascending lexicographic order of the
    character codes of the whole path; [touch] is called on them in that
    order.  The order is case-sensitive (capitals come before small
    letters) and not numeric: [img10.jpg] comes before [img9.jpg]. *)
Theorem files_are_processed_in_path_order (h : Host) folder start inc exts
    entries :
  scandir h folder = inr entries ->
  sorted_images folder (default IMAGE_EXTENSIONS exts) entries
  ≡ₚ map (entry_path folder)
       (List.filter (is_image (default IMAGE_EXTENSIONS exts)) entries)
  /\ StronglySorted lex_le
       (sorted_images folder (default IMAGE_EXTENSIONS exts) entries)
  /\ touched (update_image_dates h folder start inc exts)
     `prefix_of` sorted_images folder (default IMAGE_EXTENSIONS exts) entries
  /\ lex_lt "pics/img10.jpg" "pics/img9.jpg"
  /\ sorted_images "pics" IMAGE_EXTENSIONS [entry "img9.jpg"; entry "img10.jpg"]
     = ["pics/img10.jpg"; "pics/img9.jpg"]
  /\ sorted_images "pics" IMAGE_EXTENSIONS [entry "a.jpg"; entry "B.jpg"]
     = ["pics/B.jpg"; "pics/a.jpg"].
Proof.
  intros Hscan. split; [apply sorted_images_Permutation|].
  split; [apply sort_StronglySorted|]. split.
  - destruct (calls_nil_or_loop h folder start inc exts)
      as [Hnil|(entries' & d0 & Hdir & Hinc & Hscan' & Hstart & Hne)].
    + unfold touched. rewrite Hnil. apply prefix_nil.
    + assert (entries' = entries) as -> by congruence.
      rewrite (run_loop h folder start inc exts entries d0) by assumption.
      cbv zeta. rewrite touched_prepend_header. apply process_touched.
  - split; [|split; vm_compute; reflexivity].
    apply compare_Lt_iff. reflexivity.
Qed.

(** On the example folder. *)
Lemma files_are_processed_in_path_order_witness :
  touched (update_image_dates (host_with abc all_succeed) "pics" None 60 None)
  `prefix_of` ["pics/a.jpg"; "pics/b.jpg"; "pics/c.png"].
Proof.
  exact (proj1 (proj2 (proj2 (files_are_processed_in_path_order
                                (host_with abc all_succeed) "pics" None 60
                                None abc eq_refl)))).
Defined.

(** ** The filter *)

Lemma lower_char_idemp (c : ascii) :
  Str.lower_char (Str.lower_char c) = Str.lower_char c.
Proof.
  destruct c as [b0 b1 b2 b3 b4 b5 b6 b7].
  destruct b0, b1, b2, b3, b4, b5, b6, b7; reflexivity.
Qed.

Lemma lower_idemp (s : string) : Str.lower (Str.lower s) = Str.lower s.
Proof.
  induction s as [|c s IH]; simpl; [reflexivity|].
  now rewrite lower_char_idemp, IH.
Qed.

(** A lowered string is never an entry with an upper-case character. *)
Lemma lower_ne_upper (x s : string) : has_upper x -> Str.lower s <> x.
Proof.
  intros Hup Heq. apply Hup. rewrite <- Heq. apply lower_idemp.
Qed.

Lemma rfind_lower_bound (c : ascii) (s : string) : -1 <= Str.rfind c s.
Proof.
  induction s as [|a s IH]; simpl; [lia|].
  destruct (Z.leb_spec 0 (Str.rfind c s)); [lia|].
  destruct (Ascii.eqb a c); lia.
Qed.

Lemma rfind_absent (c : ascii) (s : string) :
  (forall i, String.get i s <> Some c) -> Str.rfind c s = -1.
Proof.
  induction s as [|a s IH]; intros Habs; simpl; [reflexivity|].
  rewrite IH by (intros i; apply (Habs (S i))). simpl.
  destruct (Ascii.eqb_spec a c) as [->|_]; [|reflexivity].
  now destruct (Habs 0%nat).
Qed.

(** A name made of a dot and a suffix without a dot has no extension. *)
Lemma splitext_dot_name (suf : string) :
  (forall i, String.get i suf <> Some "."%char) ->
  Path.splitext (String "." suf) = (String "." suf, EmptyString).
Proof.
  intros Hnodot. unfold Path.splitext.
  assert (Str.rfind "." (String "." suf) = 0) as ->.
  { simpl. now rewrite (rfind_absent _ _ Hnodot). }
  pose proof (rfind_lower_bound "/" suf) as Hlb.
  assert (Str.rfind "/" (String "." suf) = -1
          \/ 0 < Str.rfind "/" (String "." suf)) as [->|Hpos].
  { simpl. destruct (Z.leb_spec 0 (Str.rfind "/" suf)); [right; lia|now left]. }
  - reflexivity.
  - destruct (Z.ltb_spec (Str.rfind "/" (String "." suf)) 0); [lia|reflexivity].
Qed.

Lemma append_inj_r (p a b : string) : p +:+ a = p +:+ b -> a = b.
Proof.
  induction p as [|c p IH]; simpl; [auto|]. intros [= H]. now apply IH.
Qed.

Lemma join_inj (folder a b : string) :
  Path.join folder a = Path.join folder b -> a = b.
Proof.
  unfold Path.join. destruct (Str.ends_with_sep folder); intros H.
  - now apply append_inj_r in H.
  - apply append_inj_r in H. now apply (append_inj_r "/") in H.
Qed.

Lemma NoDup_name_inj (entries : list DirEntry) (e e' : DirEntry) :
  NoDup (name <$> entries) -> e ∈ entries -> e' ∈ entries ->
  name e = name e' -> e = e'.
Proof.
  induction entries as [|x entries IH]; intros Hnd He He' Hname.
  - inversion He.
  - rewrite fmap_cons in Hnd. apply NoDup_cons in Hnd as [Hx Hnd].
    apply elem_of_cons in He as [->|He];
      apply elem_of_cons in He' as [->|He']; auto.
    + exfalso. apply Hx. rewrite Hname. now apply list_elem_of_fmap_2.
    + exfalso. apply Hx. rewrite <- Hname. now apply list_elem_of_fmap_2.
Qed.

(** The paths of the scan are the paths of the children that pass the test. *)
Lemma elem_of_sorted_images folder exts entries (p : string) :
  p ∈ sorted_images folder exts entries
  <-> exists e, e ∈ entries /\ is_image exts e = true /\ entry_path folder e = p.
Proof.
  rewrite sorted_images_Permutation, list_elem_of_In, in_map_iff.
  split.
  - intros (e & Hpath & Hin). apply filter_In in Hin as [Hin Himg].
    apply list_elem_of_In in Hin. eauto.
  - intros (e & Hin & Himg & Hpath). exists e. split; [exact Hpath|].
    apply filter_In. split; [now apply list_elem_of_In | exact Himg].
Qed.

Lemma is_image_true exts (e : DirEntry) :
  is_image exts e = true
  <-> is_file e = true /\ Str.lower (Path.splitext (name e)).2 ∈ exts.
Proof.
  unfold is_image. rewrite andb_true_iff, bool_decide_eq_true. reflexivity.
Qed.

Lemma child_in_sorted_images folder exts entries (e : DirEntry) :
  NoDup (name <$> entries) -> e ∈ entries ->
  entry_path folder e ∈ sorted_images folder exts entries
  <-> is_image exts e = true.
Proof.
  intros Hnd He. rewrite elem_of_sorted_images. split.
  - intros (e' & He' & Himg & Hpath).
    apply join_inj in Hpath.
    now rewrite <- (NoDup_name_inj entries e' e Hnd He' He Hpath).
  - intros Himg. eauto.
Qed.

(** The fuel of the dot-skipping loop is enough: more fuel gives the same
    answer. *)
Lemma finds_non_dot_fuel (fuel extra : nat) (p : string) (i j : Z) :
  j - i <= Z.of_nat fuel ->
  Path.finds_non_dot (fuel + extra) p i j = Path.finds_non_dot fuel p i j.
Proof.
  revert i. induction fuel as [|fuel IH]; intros i Hfuel; simpl.
  - destruct extra as [|extra]; simpl; [reflexivity|].
    destruct (Z.ltb_spec i j); [lia|reflexivity].
  - destruct (Z.ltb_spec i j); [|reflexivity].
    destruct (negb _); [reflexivity|]. apply IH. lia.
Qed.

(** Lowering a name does not move its dots and slashes, so it lowers the
    extension and nothing else changes in the split. *)
Lemma eqb_lower_char_dot (a : ascii) :
  Ascii.eqb (Str.lower_char a) "." = Ascii.eqb a ".".
Proof.
  destruct a as [b0 b1 b2 b3 b4 b5 b6 b7].
  destruct b0, b1, b2, b3, b4, b5, b6, b7; reflexivity.
Qed.

Lemma eqb_lower_char_sep (a : ascii) :
  Ascii.eqb (Str.lower_char a) "/" = Ascii.eqb a "/".
Proof.
  destruct a as [b0 b1 b2 b3 b4 b5 b6 b7].
  destruct b0, b1, b2, b3, b4, b5, b6, b7; reflexivity.
Qed.

Lemma rfind_lower (c : ascii) (s : string) :
  (forall a, Ascii.eqb (Str.lower_char a) c = Ascii.eqb a c) ->
  Str.rfind c (Str.lower s) = Str.rfind c s.
Proof.
  intros Hc. induction s as [|a s IH]; simpl; [reflexivity|].
  now rewrite IH, Hc.
Qed.

Lemma substring_lower (n m : nat) (s : string) :
  String.substring n m (Str.lower s) = Str.lower (String.substring n m s).
Proof.
  revert n m. induction s as [|a s IH]; intros [|n] [|m]; simpl;
    try reflexivity; try apply IH.
  f_equal. apply IH.
Qed.

Lemma slice_lower (s : string) (lo hi : Z) :
  Str.slice (Str.lower s) lo hi = Str.lower (Str.slice s lo hi).
Proof. apply substring_lower. Qed.

Lemma len_lower (s : string) : Str.len (Str.lower s) = Str.len s.
Proof.
  unfold Str.len. f_equal. induction s as [|a s IH]; simpl; congruence.
Qed.

Lemma eqb_lower_dot (x : string) :
  String.eqb (Str.lower x) "." = String.eqb x ".".
Proof.
  destruct x as [|a [|b x]]; simpl; try reflexivity;
    now rewrite eqb_lower_char_dot.
Qed.

Lemma finds_non_dot_lower (fuel : nat) (p : string) (i j : Z) :
  Path.finds_non_dot fuel (Str.lower p) i j = Path.finds_non_dot fuel p i j.
Proof.
  revert i. induction fuel as [|fuel IH]; intros i; simpl; [reflexivity|].
  now rewrite slice_lower, eqb_lower_dot, IH.
Qed.

Lemma splitext_lower (p : string) :
  Path.splitext (Str.lower p)
  = (Str.lower (Path.splitext p).1, Str.lower (Path.splitext p).2).
Proof.
  unfold Path.splitext.
  rewrite (rfind_lower "/" p eqb_lower_char_sep),
    (rfind_lower "." p eqb_lower_char_dot), finds_non_dot_lower, len_lower.
  destruct (_ && _); simpl; [|reflexivity].
  now rewrite !slice_lower.
Qed.

(** The test does not see the case of the name. *)
Lemma is_image_lower_name (exts : gset string) (n : string) (b : bool) :
  is_image exts {| name := Str.lower n; is_file := b |}
  = is_image exts {| name := n; is_file := b |}.
Proof.
  unfold is_image. cbn [name is_file]. rewrite splitext_lower. cbn [snd].
  now rewrite lower_idemp.
Qed.

Lemma default_extensions (x : string) :
  x ∈ default IMAGE_EXTENSIONS None
  <-> x ∈ [".jpg"; ".jpeg"; ".png"; ".tiff"; ".tif"; ".heic"; ".nef"; ".cr2";
           ".arw"].
Proof.
  unfold IMAGE_EXTENSIONS. simpl.
  rewrite !elem_of_union, !elem_of_singleton, !elem_of_cons, elem_of_nil.
  tauto.
Qed.

(** C5. A child of the scanned folder is among the files of the run exactly
    when it is a regular file and its extension, lowered, is a member of the
    active set.  So a child whose lowered extension is not listed is left
    out, and a child without an extension is left out by every set of
    extensions (a set that does not hold the empty string).  The test does
    not see the case of the name: the child passes exactly when it would
    pass with its name lowered.  The active set is the caller's, and the nine
    extensions of [IMAGE_EXTENSIONS] when the caller gives none. *)
Theorem filter_correctness folder exts entries (e : DirEntry) :
  NoDup (name <$> entries) ->
  e ∈ entries ->
  (entry_path folder e
     ∈ sorted_images folder (default IMAGE_EXTENSIONS exts) entries
   <-> is_file e = true
       /\ Str.lower (Path.splitext (name e)).2 ∈ default IMAGE_EXTENSIONS exts)
  /\ (Str.lower (Path.splitext (name e)).2 ∉ default IMAGE_EXTENSIONS exts ->
      entry_path folder e
        ∉ sorted_images folder (default IMAGE_EXTENSIONS exts) entries)
  /\ ((Path.splitext (name e)).2 = EmptyString ->
      EmptyString ∉ default IMAGE_EXTENSIONS exts ->
      entry_path folder e
        ∉ sorted_images folder (default IMAGE_EXTENSIONS exts) entries)
  /\ is_image (default IMAGE_EXTENSIONS exts)
       {| name := Str.lower (name e); is_file := is_file e |}
     = is_image (default IMAGE_EXTENSIONS exts) e
  /\ (forall S : gset string, default IMAGE_EXTENSIONS (Some S) = S)
  /\ (forall x : string,
        x ∈ default IMAGE_EXTENSIONS None
        <-> x ∈ [".jpg"; ".jpeg"; ".png"; ".tiff"; ".tif"; ".heic"; ".nef";
                 ".cr2"; ".arw"])
  /\ is_image IMAGE_EXTENSIONS (entry "A.JPG") = true
  /\ is_image IMAGE_EXTENSIONS (entry "a.bmp") = false
  /\ is_image IMAGE_EXTENSIONS (entry "A.BMP") = false
  /\ is_image IMAGE_EXTENSIONS (entry "README") = false
  /\ is_image IMAGE_EXTENSIONS (subfolder "a.jpg") = false.
Proof.
  intros Hnd He.
  assert (entry_path folder e
            ∈ sorted_images folder (default IMAGE_EXTENSIONS exts) entries
          <-> is_file e = true
              /\ Str.lower (Path.splitext (name e)).2
                   ∈ default IMAGE_EXTENSIONS exts) as Hiff.
  { rewrite child_in_sorted_images by assumption. apply is_image_true. }
  split; [exact Hiff|]. split; [|split].
  - intros Hout Hin. apply Hiff in Hin. tauto.
  - intros Hnoext Hempty Hin. apply Hiff in Hin as [_ Hin].
    rewrite Hnoext in Hin. simpl in Hin. contradiction.
  - split; [destruct e; apply is_image_lower_name|].
    split; [reflexivity|]. split; [apply default_extensions|].
    repeat split; vm_compute; reflexivity.
Qed.

(** [a.jpg] of the example folder is among the files of the run. *)
Lemma filter_correctness_witness :
  "pics/a.jpg" ∈ sorted_images "pics" IMAGE_EXTENSIONS abc.
Proof.
  assert (NoDup (name <$> abc)) as Hnd.
  { apply NoDup_ListNoDup. repeat constructor; simpl; intuition discriminate. }
  assert (entry "a.jpg" ∈ abc) as Hin.
  { apply list_elem_of_In. simpl. tauto. }
  apply (proj1 (filter_correctness "pics" None abc (entry "a.jpg") Hnd Hin)).
  split; [reflexivity|]. vm_compute. reflexivity.
Defined.

(** C9. A name made of a leading dot and a suffix without another dot, such
    as [.jpg], is split into the whole name and the empty extension.  The
    child is therefore left out by every set of extensions (a set that does
    not hold the empty string), in particular by [IMAGE_EXTENSIONS], even
    when the set lists the dot with the suffix. *)
Theorem dot_name_is_excluded (suf : string) :
  (forall i, String.get i suf <> Some "."%char) ->
  Path.splitext (String "." suf) = (String "." suf, EmptyString)
  /\ (forall (exts : gset string) (b : bool),
        EmptyString ∉ exts ->
        is_image exts {| name := String "." suf; is_file := b |} = false)
  /\ (forall b : bool,
        is_image IMAGE_EXTENSIONS {| name := String "." suf; is_file := b |}
        = false)
  /\ (forall folder (exts : gset string) entries,
        EmptyString ∉ exts ->
        Path.join folder (String "." suf) ∉ sorted_images folder exts entries).
Proof.
  intros Hnodot.
  pose proof (splitext_dot_name suf Hnodot) as Hsplit.
  assert (forall (exts : gset string) (b : bool),
            EmptyString ∉ exts ->
            is_image exts {| name := String "." suf; is_file := b |} = false)
    as Hout.
  { intros exts b Hempty. unfold is_image. simpl name. rewrite Hsplit. simpl.
    rewrite bool_decide_eq_false_2 by exact Hempty. apply andb_false_r. }
  split; [exact Hsplit|]. split; [exact Hout|]. split.
  - intros b. apply Hout. vm_compute. intros H. discriminate H.
  - intros folder exts entries Hempty Hin.
    apply elem_of_sorted_images in Hin as (e & _ & Himg & Hpath).
    apply join_inj in Hpath. destruct e as [n b]. simpl in Hpath. subst n.
    rewrite (Hout exts b Hempty) in Himg. discriminate.
Qed.

(** The file named [.jpg]. *)
Lemma dot_name_is_excluded_witness :
  Path.splitext ".jpg" = (".jpg", EmptyString)
  /\ is_image IMAGE_EXTENSIONS (entry ".jpg") = false.
Proof.
  assert (forall i, String.get i "jpg" <> Some "."%char) as Hnodot.
  { intros [|[|[|i]]]; simpl; discriminate. }
  split.
  - exact (proj1 (dot_name_is_excluded "jpg" Hnodot)).
  - exact (proj1 (proj2 (proj2 (dot_name_is_excluded "jpg" Hnodot))) true).
Defined.

(** ** Extension sets with upper-case entries *)

Lemma is_image_upper_entry (exts : gset string) (x : string) (e : DirEntry) :
  has_upper x -> is_image ({[x]} ∪ exts) e = is_image exts e.
Proof.
  intros Hup. unfold is_image. f_equal. apply bool_decide_ext.
  rewrite elem_of_union, elem_of_singleton.
  pose proof (lower_ne_upper x (Path.splitext (name e)).2 Hup). tauto.
Qed.

Lemma is_image_all_upper (exts : gset string) (e : DirEntry) :
  (forall x, x ∈ exts -> has_upper x) -> is_image exts e = false.
Proof.
  intros Hall. unfold is_image.
  rewrite bool_decide_eq_false_2; [apply andb_false_r|].
  intros Hin. exact (lower_ne_upper _ _ (Hall _ Hin) eq_refl).
Qed.

(** C10, as the code has it. The extension of a file is lowered and then
    looked up in the set as the caller gave it.  An entry with an upper-case
    character is therefore never matched: adding it to a set changes
    nothing.  A set in which every entry has an upper-case character, such
    as [{".JPG"}], matches no file, and the run on it is the empty-input
    outcome. *)
Theorem uppercase_entries_match_nothing :
  (forall (exts : gset string) (e : DirEntry),
     is_image exts e = true
     <-> is_file e = true /\ Str.lower (Path.splitext (name e)).2 ∈ exts)
  /\ (forall x s : string, has_upper x -> Str.lower s <> x)
  /\ (forall (exts : gset string) (x : string) (e : DirEntry),
        has_upper x -> is_image ({[x]} ∪ exts) e = is_image exts e)
  /\ (forall (exts : gset string) folder entries,
        (forall x, x ∈ exts -> has_upper x) ->
        sorted_images folder exts entries = [])
  /\ (forall (h : Host) folder start inc (exts : gset string) entries,
        (forall x, x ∈ exts -> has_upper x) ->
        isdir h folder = true ->
        0 < inc ->
        scandir h folder = inr entries ->
        update_image_dates h folder start inc (Some exts)
        = empty_input_outcome)
  /\ has_upper ".JPG".
Proof.
  split; [apply is_image_true|]. split; [apply lower_ne_upper|].
  split; [apply is_image_upper_entry|].
  assert (forall (exts : gset string) folder entries,
            (forall x, x ∈ exts -> has_upper x) ->
            sorted_images folder exts entries = []) as Hnone.
  { intros exts folder entries Hall. apply sorted_images_nil.
    intros e _. now apply is_image_all_upper. }
  split; [exact Hnone|]. split.
  - intros h folder start inc exts entries Hall Hdir Hinc Hscan.
    unfold update_image_dates. rewrite Hdir, Hscan. simpl.
    destruct (Z.leb_spec inc 0) as [?|_]; [lia|].
    now rewrite (Hnone exts folder entries Hall).
  - unfold has_upper. discriminate.
Qed.

(** The set [{".JPG"}] on the example folder. *)
Lemma uppercase_entries_witness :
  update_image_dates (host_with abc all_succeed) "pics" None 60
    (Some {[ ".JPG" ]})
  = empty_input_outcome.
Proof.
  assert (forall x : string, x ∈ ({[ ".JPG" ]} : gset string) -> has_upper x)
    as Hall.
  { intros x Hx. apply elem_of_singleton in Hx as ->.
    unfold has_upper. discriminate. }
  exact (proj1 (proj2 (proj2 (proj2 (proj2 uppercase_entries_match_nothing))))
           (host_with abc all_succeed) "pics" None 60 {[ ".JPG" ]} abc
           Hall eq_refl eq_refl eq_refl).
Defined.

(** C10, as it is worded, fails: a set that holds an upper-case entry next
    to a lower-case one still matches the files of the lower-case entry. *)
Lemma mixed_case_set_still_matches :
  (exists x : string, x ∈ ({[ ".JPG"; ".png" ]} : gset string) /\ has_upper x)
  /\ sorted_images "pics" {[ ".JPG"; ".png" ]} abc = ["pics/c.png"]
  /\ update_image_dates (host_with abc all_succeed) "pics" None 60
       (Some {[ ".JPG"; ".png" ]})
     <> empty_input_outcome.
Proof.
  split; [|split].
  - exists ".JPG". split; [set_solver|]. unfold has_upper. discriminate.
  - vm_compute. reflexivity.
  - vm_compute. discriminate.
Qed.

(** * Further properties *)

(** ** The scan does not depend on the order of the listing *)

#[export] Instance str_le_antisym : AntiSymm (=) str_le.
Proof.
  intros a b Hab Hba. apply lex_le_antisym; now apply str_le_lex_le.
Qed.

Lemma filter_Permutation {A} (p : A -> bool) (l l' : list A) :
  l ≡ₚ l' -> List.filter p l ≡ₚ List.filter p l'.
Proof.
  induction 1 as [|x l l' _ IH|x y l|l l' l'' _ IH1 _ IH2]; simpl.
  - reflexivity.
  - destruct (p x); [now constructor|exact IH].
  - destruct (p x), (p y); try reflexivity. apply perm_swap.
  - now transitivity (List.filter p l').
Qed.

Lemma sort_unique (l l' : list string) : l ≡ₚ l' -> sort l = sort l'.
Proof.
  intros Hperm. unfold sort.
  apply (StronglySorted_unique str_le);
    try apply (StronglySorted_merge_sort str_le).
  now rewrite !merge_sort_Permutation.
Qed.

Lemma sorted_images_listing_order folder exts entries entries' :
  entries ≡ₚ entries' ->
  sorted_images folder exts entries = sorted_images folder exts entries'.
Proof.
  intros Hperm. unfold sorted_images. apply sort_unique.
  rewrite !collect_spec. apply Permutation_map.
  now apply filter_Permutation.
Qed.

Lemma process_host (h h' : Host) (m : Z) (total i : nat) (d : datetime)
    (files : list string) :
  (forall c, subprocess_run h c = subprocess_run h' c) ->
  process h m total i d files = process h' m total i d files.
Proof.
  intros Hrun. revert i d. induction files as [|f fs IH]; intros i d.
  - reflexivity.
  - rewrite !process_cons, <- !Hrun.
    destruct (subprocess_run h (Touch d f)); try reflexivity.
    destruct (subprocess_run h (SetFile d f)); try reflexivity.
    destruct (Datetime.add_minutes d m); [reflexivity|].
    now rewrite IH.
Qed.

(** X1. [os.scandir] lists the children of a folder in no particular
    order; the run does not depend on it: two listings with the same
    children give the same run, event for event. *)
Theorem run_ignores_listing_order (h : Host) folder start inc exts
    entries entries' :
  entries ≡ₚ entries' ->
  sorted_images folder (default IMAGE_EXTENSIONS exts) entries
  = sorted_images folder (default IMAGE_EXTENSIONS exts) entries'
  /\ update_image_dates (with_listing h entries) folder start inc exts
     = update_image_dates (with_listing h entries') folder start inc exts.
Proof.
  intros Hperm.
  pose proof (sorted_images_listing_order folder
                (default IMAGE_EXTENSIONS exts) _ _ Hperm) as Heq.
  split; [exact Heq|].
  unfold update_image_dates.
  change (isdir (with_listing h entries)) with (isdir h).
  change (isdir (with_listing h entries')) with (isdir h).
  change (scandir (with_listing h entries) folder)
    with (@inr exn _ entries).
  change (scandir (with_listing h entries') folder)
    with (@inr exn _ entries').
  change (resolve_start (with_listing h entries) start)
    with (resolve_start h start).
  change (resolve_start (with_listing h entries') start)
    with (resolve_start h start).
  cbv beta iota zeta. rewrite Heq.
  destruct (negb (isdir h folder)); [reflexivity|].
  destruct (inc <=? 0); [reflexivity|].
  destruct (sorted_images folder (default IMAGE_EXTENSIONS exts) entries');
    [reflexivity|].
  destruct (resolve_start h start); [|reflexivity].
  do 3 f_equal. now apply process_host.
Qed.

(** The example folder listed in two orders. *)
Lemma run_ignores_listing_order_witness :
  update_image_dates
    (with_listing (host_with [] all_succeed)
       [entry "b.jpg"; entry "a.jpg"; entry "c.png"])
    "pics" None 60 None
  = update_image_dates
      (with_listing (host_with [] all_succeed)
         [entry "c.png"; entry "b.jpg"; entry "a.jpg"])
      "pics" None 60 None.
Proof.
  assert ([entry "b.jpg"; entry "a.jpg"; entry "c.png"]
          ≡ₚ [entry "c.png"; entry "b.jpg"; entry "a.jpg"]) as Hperm.
  { apply (Permutation_cons_app [entry "c.png"] [entry "a.jpg"]).
    apply perm_swap. }
  exact (proj2 (run_ignores_listing_order (host_with [] all_succeed) "pics"
                  None 60 None _ _ Hperm)).
Defined.

Lemma sorted_images_length folder exts entries :
  length (sorted_images folder exts entries)
  = length (List.filter (is_image exts) entries).
Proof.
  rewrite (Permutation_length (sorted_images_Permutation folder exts entries)).
  apply length_map.
Qed.

Lemma NoDup_filter_names (p : DirEntry -> bool) (entries : list DirEntry) :
  NoDup (name <$> entries) -> NoDup (name <$> List.filter p entries).
Proof.
  induction entries as [|e entries IH]; intros Hnd; simpl; [constructor|].
  rewrite fmap_cons in Hnd. apply NoDup_cons in Hnd as [Hx Hnd].
  destruct (p e); [|now apply IH].
  rewrite fmap_cons. apply NoDup_cons. split; [|now apply IH].
  intros Hin. apply Hx. apply list_elem_of_fmap in Hin as (e' & -> & Hin).
  apply list_elem_of_fmap_2. apply list_elem_of_In in Hin.
  apply filter_In in Hin as [Hin _]. now apply list_elem_of_In.
Qed.

(** X2. When the children of the folder have distinct names, the list of
    files of a run has no path twice, and it has as many paths as there are
    children that pass the test: every matching child is processed once. *)
Theorem each_match_is_listed_once folder exts entries :
  NoDup (name <$> entries) ->
  NoDup (sorted_images folder exts entries)
  /\ length (sorted_images folder exts entries)
     = length (List.filter (is_image exts) entries).
Proof.
  intros Hnd. split; [|apply sorted_images_length].
  rewrite sorted_images_Permutation.
  apply NoDup_filter_names with (p := is_image exts) in Hnd.
  revert Hnd. generalize (List.filter (is_image exts) entries). intros l Hnd.
  induction l as [|e l IH]; simpl; [constructor|].
  rewrite fmap_cons in Hnd. apply NoDup_cons in Hnd as [Hx Hnd].
  apply NoDup_cons. split; [|now apply IH].
  intros Hin. apply Hx. apply list_elem_of_In, in_map_iff in Hin
    as (e' & Hpath & Hin).
  apply join_inj in Hpath. rewrite <- Hpath.
  apply list_elem_of_fmap_2. now apply list_elem_of_In.
Qed.

Lemma each_match_is_listed_once_witness :
  NoDup (sorted_images "pics" IMAGE_EXTENSIONS abc)
  /\ length (sorted_images "pics" IMAGE_EXTENSIONS abc) = 3%nat.
Proof.
  assert (NoDup (name <$> abc)) as Hnd.
  { apply NoDup_ListNoDup. repeat constructor; simpl; intuition discriminate. }
  exact (each_match_is_listed_once "pics" IMAGE_EXTENSIONS abc Hnd).
Defined.

(** ** Runs where every command succeeds *)

Lemma add_minutes_inl (d : datetime) (m : Z) (e : exn) :
  Datetime.add_minutes d m = inl e -> e = OverflowError.
Proof.
  unfold Datetime.add_minutes, Datetime.timedelta_minutes, Datetime.add.
  destruct (_ <? _); [congruence|].
  destruct (Datetime.in_range _); congruence.
Qed.

(** X3. With a valid folder, a positive increment, at least one image and a
    start date: when both commands succeed on every file and the date can be
    advanced after every file (the last one included), the run prints the
    header, updates every file in sorted order with one progress line each,
    numbered from 1, and ends with the loop. *)
Theorem run_completes_when_commands_succeed (h : Host) folder start inc exts
    entries d0 :
  isdir h folder = true ->
  0 < inc ->
  scandir h folder = inr entries ->
  resolve_start h start = Some d0 ->
  sorted_images folder (default IMAGE_EXTENSIONS exts) entries <> [] ->
  (forall j f,
     sorted_images folder (default IMAGE_EXTENSIONS exts) entries !! j
     = Some f ->
     subprocess_run h (Touch (date_at d0 inc j) f) = Completed
     /\ subprocess_run h (SetFile (date_at d0 inc j) f) = Completed
     /\ Datetime.add_minutes (date_at d0 inc j) inc
        = inr (date_at d0 inc (S j))) ->
  update_image_dates h folder start inc exts
  = {| log :=
         header (length (sorted_images folder (default IMAGE_EXTENSIONS exts)
                           entries)) d0 inc
         ++ concat
              (imap (update_events
                       (length (sorted_images folder
                                  (default IMAGE_EXTENSIONS exts) entries))
                       d0 inc)
                 (sorted_images folder (default IMAGE_EXTENSIONS exts)
                    entries));
       exit := Finished |}.
Proof.
  intros Hdir Hinc Hscan Hstart Hne Hok.
  rewrite (run_loop h folder start inc exts entries d0) by assumption.
  cbv zeta.
  generalize dependent
    (sorted_images folder (default IMAGE_EXTENSIONS exts) entries).
  intros files _ Hok.
  pose proof (process_app h inc (length files) d0 0 files []) as Happ.
  rewrite date_at_0, app_nil_r in Happ. simpl in Happ.
  rewrite Happ by exact Hok.
  unfold prepend. simpl. now rewrite app_nil_r.
Qed.

Lemma run_completes_witness :
  exit (update_image_dates (host_with abc all_succeed) "pics"
          (Some (Moment new_year_2024)) 60 None) = Finished.
Proof.
  assert (forall j f,
            sorted_images "pics" (default IMAGE_EXTENSIONS None) abc !! j
            = Some f ->
            subprocess_run (host_with abc all_succeed)
              (Touch (date_at new_year_2024 60 j) f) = Completed
            /\ subprocess_run (host_with abc all_succeed)
                 (SetFile (date_at new_year_2024 60 j) f) = Completed
            /\ Datetime.add_minutes (date_at new_year_2024 60 j) 60
               = inr (date_at new_year_2024 60 (S j))) as Hok.
  { intros [|[|[|j]]] f Hj; try discriminate; repeat split. }
  rewrite (run_completes_when_commands_succeed (host_with abc all_succeed)
             "pics" (Some (Moment new_year_2024)) 60 None abc new_year_2024
             eq_refl eq_refl eq_refl eq_refl
             ltac:(vm_compute; discriminate) Hok).
  reflexivity.
Defined.

(** X4. The date is advanced inside the loop after each file, the last one
    included.  When the commands succeed up to and on a file [B] and the date
    cannot be advanced after it, the run has updated [B] and the files before
    it, printed their progress lines, touched no later file, and leaves by
    [OverflowError]. *)
Theorem date_overflow_leaves_after_update (h : Host) folder start inc exts
    entries d0 (before after : list string) (B : string) (e : exn) :
  isdir h folder = true ->
  0 < inc ->
  scandir h folder = inr entries ->
  resolve_start h start = Some d0 ->
  sorted_images folder (default IMAGE_EXTENSIONS exts) entries
  = before ++ B :: after ->
  (forall j f, before !! j = Some f ->
     subprocess_run h (Touch (date_at d0 inc j) f) = Completed
     /\ subprocess_run h (SetFile (date_at d0 inc j) f) = Completed
     /\ Datetime.add_minutes (date_at d0 inc j) inc
        = inr (date_at d0 inc (S j))) ->
  subprocess_run h (Touch (date_at d0 inc (length before)) B) = Completed ->
  subprocess_run h (SetFile (date_at d0 inc (length before)) B) = Completed ->
  Datetime.add_minutes (date_at d0 inc (length before)) inc = inl e ->
  e = OverflowError
  /\ update_image_dates h folder start inc exts
     = {| log :=
            header (length (before ++ B :: after)) d0 inc
            ++ concat (imap (update_events (length (before ++ B :: after))
                               d0 inc) before)
            ++ update_events (length (before ++ B :: after)) d0 inc
                 (length before) B;
          exit := Raised OverflowError |}.
Proof.
  intros Hdir Hinc Hscan Hstart Hfiles Hok Ht Hs Hadd.
  pose proof (add_minutes_inl _ _ _ Hadd) as ->. split; [reflexivity|].
  rewrite (run_loop h folder start inc exts entries d0); try assumption;
    [|rewrite Hfiles; now destruct before].
  cbv zeta. rewrite Hfiles.
  pose proof (process_app h inc (length (before ++ B :: after)) d0 0 before
                (B :: after)) as Happ.
  rewrite date_at_0 in Happ. simpl in Happ. rewrite Happ by exact Hok.
  change (process h inc (length (before ++ B :: after)) (S (length before))
            (date_at d0 inc (length before)) (B :: after))
    with (run_checked h B (Touch (date_at d0 inc (length before)) B)
            (run_checked h B (SetFile (date_at d0 inc (length before)) B)
               (print (Updated (S (length before))
                         (length (before ++ B :: after))
                         (Path.basename B) (date_at d0 inc (length before)));;
                match Datetime.add_minutes (date_at d0 inc (length before)) inc
                with
                | inl e => finish (Raised e)
                | inr next_date =>
                    process h inc (length (before ++ B :: after))
                      (S (S (length before))) next_date after
                end))).
  unfold run_checked. rewrite Ht, Hs, Hadd.
  unfold prepend, update_events. simpl. rewrite <- ?app_assoc. reflexivity.
Qed.

(** One image and a start in the last minute of the year 9999. *)
Lemma date_overflow_witness :
  update_image_dates (host_with [entry "a.jpg"] all_succeed) "pics"
    (Some (Moment 315537897599000000)) 1 None
  = {| log := [Print (Found 1); Print (StartingDate 315537897599000000);
               Print (IncrementIs 1);
               Ran (Touch 315537897599000000 "pics/a.jpg") Completed;
               Ran (SetFile 315537897599000000 "pics/a.jpg") Completed;
               Print (Updated 1 1 "a.jpg" 315537897599000000)];
       exit := Raised OverflowError |}.
Proof.
  assert (forall j f, @nil string !! j = Some f ->
            subprocess_run (host_with [entry "a.jpg"] all_succeed)
              (Touch (date_at 315537897599000000 1 j) f) = Completed
            /\ subprocess_run (host_with [entry "a.jpg"] all_succeed)
                 (SetFile (date_at 315537897599000000 1 j) f) = Completed
            /\ Datetime.add_minutes (date_at 315537897599000000 1 j) 1
               = inr (date_at 315537897599000000 1 (S j))) as Hok.
  { intros j f Hj. destruct j; discriminate. }
  exact (proj2 (date_overflow_leaves_after_update
                  (host_with [entry "a.jpg"] all_succeed) "pics"
                  (Some (Moment 315537897599000000)) 1 None
                  [entry "a.jpg"] 315537897599000000 [] [] "pics/a.jpg"
                  OverflowError eq_refl eq_refl eq_refl eq_refl eq_refl Hok
                  eq_refl eq_refl eq_refl)).
Defined.

(** ** What a run never does *)

Lemma omap_ran_suffix (pre post : list event) :
  omap ran (pre ++ post) = [] -> omap ran post = [].
Proof.
  rewrite omap_app. intros H. now apply app_eq_nil in H as [_ H].
Qed.

Lemma stops_at_failure_quiet (l : list event) :
  omap ran l = [] -> stops_at_failure l.
Proof.
  intros Hq pre c o post -> _.
  apply omap_ran_suffix in Hq. discriminate.
Qed.

Lemma stops_at_failure_Print (m : message) (l : list event) :
  stops_at_failure l -> stops_at_failure (Print m :: l).
Proof.
  intros Hl [|x pre] c o post Heq Ho; [discriminate|].
  injection Heq as _ Heq. exact (Hl pre c o post Heq Ho).
Qed.

Lemma stops_at_failure_Completed (c : command) (l : list event) :
  stops_at_failure l -> stops_at_failure (Ran c Completed :: l).
Proof.
  intros Hl [|x pre] c' o post Heq Ho.
  - injection Heq as _ <- _. congruence.
  - injection Heq as _ Heq. exact (Hl pre c' o post Heq Ho).
Qed.

Lemma stops_at_failure_last (c : command) (o : run_outcome) (l : list event) :
  omap ran l = [] -> stops_at_failure (Ran c o :: l).
Proof.
  intros Hq [|x pre] c' o' post Heq _.
  - injection Heq as _ _ <-. exact Hq.
  - injection Heq as _ ->. now apply omap_ran_suffix in Hq.
Qed.

Lemma on_error_quiet (f : string) (e : CalledProcessError) :
  omap ran (log (on_error f e)) = [].
Proof. exact (on_error_calls f e). Qed.

Lemma log_emit (ev : event) (r : result) : log (emit ev r) = ev :: log r.
Proof. reflexivity. Qed.

Lemma process_stops_at_failure (h : Host) (m : Z) (total i : nat)
    (d : datetime) (files : list string) :
  stops_at_failure (log (process h m total i d files)).
Proof.
  revert i d. induction files as [|f fs IH]; intros i d.
  - now apply stops_at_failure_quiet.
  - rewrite process_cons, log_emit.
    destruct (subprocess_run h (Touch d f)) as [|rc|e].
    + apply stops_at_failure_Completed. rewrite log_emit.
      destruct (subprocess_run h (SetFile d f)) as [|rc|e].
      * apply stops_at_failure_Completed. rewrite log_emit.
        apply stops_at_failure_Print.
        destruct (Datetime.add_minutes d m);
          [now apply stops_at_failure_quiet | apply IH].
      * apply stops_at_failure_last, on_error_quiet.
      * now apply stops_at_failure_last.
    + apply stops_at_failure_last, on_error_quiet.
    + now apply stops_at_failure_last.
Qed.

(** X5. Whatever the folder, the arguments and the behaviour of the
    commands: once a command has not succeeded (a status other than 0, or a
    program that cannot be started), the run issues no further command. *)
Theorem no_command_after_a_failure (h : Host) folder start inc exts
    (pre post : list event) (c : command) (o : run_outcome) :
  log (update_image_dates h folder start inc exts) = pre ++ Ran c o :: post ->
  o <> Completed ->
  omap ran post = [].
Proof.
  assert (stops_at_failure (log (update_image_dates h folder start inc exts)))
    as Hsaf; [|intros Heq Ho; exact (Hsaf pre c o post Heq Ho)].
  unfold update_image_dates.
  destruct (negb (isdir h folder)); [now apply stops_at_failure_quiet|].
  destruct (inc <=? 0); [now apply stops_at_failure_quiet|].
  destruct (scandir h folder) as [e|entries];
    [now apply stops_at_failure_quiet|].
  cbv zeta.
  destruct (sorted_images folder (default IMAGE_EXTENSIONS exts) entries)
    as [|f fs]; [now apply stops_at_failure_quiet|].
  destruct (resolve_start h start) as [d0|];
    [|now apply stops_at_failure_quiet].
  rewrite !log_emit.
  do 3 apply stops_at_failure_Print. apply process_stops_at_failure.
Qed.

(** A [touch] that exits with status 1 on [a.jpg]: only the error line
    follows. *)
Lemma no_command_after_a_failure_witness :
  omap ran
    [Print (ErrorUpdating "pics/a.jpg"
              {| cmd := Touch new_year_2024 "pics/a.jpg"; returncode := 1 |})]
  = [].
Proof.
  assert (NonZeroExit 1 <> Completed) as Hfail by discriminate.
  exact (no_command_after_a_failure
           (host_with abc (touch_fails_on "pics/a.jpg")) "pics"
           (Some (Moment new_year_2024)) 60 None
           [Print (Found 3); Print (StartingDate new_year_2024);
            Print (IncrementIs 60)]
           [Print (ErrorUpdating "pics/a.jpg"
                     {| cmd := Touch new_year_2024 "pics/a.jpg";
                        returncode := 1 |})]
           (Touch new_year_2024 "pics/a.jpg") (NonZeroExit 1) eq_refl Hfail).
Defined.

(** ** No command is issued twice *)

Lemma date_at_inj (d : datetime) (m : Z) (i j : nat) :
  0 < m -> date_at d m i = date_at d m j -> i = j.
Proof.
  unfold date_at, Datetime.US_PER_MINUTE. intros Hm Heq.
  assert (Z.of_nat i = Z.of_nat j) by nia. lia.
Qed.

Lemma planned_calls_kind (d : datetime) (m : Z) (fs : list string) (k : nat)
    (c : command) :
  planned_calls d m fs !! k = Some c ->
  match c with
  | Touch _ _ => (k mod 2 = 0)%nat
  | SetFile _ _ => (k mod 2 = 1)%nat
  end.
Proof.
  revert d k. induction fs as [|x fs IH]; intros d k Hk; [discriminate|].
  rewrite planned_calls_cons in Hk.
  destruct k as [|[|k]]; simpl in Hk.
  - now injection Hk as <-.
  - now injection Hk as <-.
  - apply IH in Hk.
    replace (S (S k)) with (k + 1 * 2)%nat by lia.
    now rewrite Nat.Div0.mod_add.
Qed.

Lemma planned_calls_NoDup (d : datetime) (m : Z) (fs : list string) :
  0 < m -> NoDup (planned_calls d m fs).
Proof.
  intros Hm. apply NoDup_alt. intros i j c Hi Hj.
  pose proof (planned_calls_date _ _ _ _ _ Hi) as Hdi.
  pose proof (planned_calls_date _ _ _ _ _ Hj) as Hdj.
  pose proof (planned_calls_kind _ _ _ _ _ Hi) as Hki.
  pose proof (planned_calls_kind _ _ _ _ _ Hj) as Hkj.
  assert (i / 2 = j / 2)%nat as Hq
    by (apply (date_at_inj d m); [exact Hm|congruence]).
  assert (i mod 2 = j mod 2)%nat as Hr by (destruct c; congruence).
  rewrite (Nat.div_mod_eq i 2), (Nat.div_mod_eq j 2). congruence.
Qed.

(** X7. In a run, no command is issued twice: any two calls differ in the
    program or in the date (the dates of the files differ because the
    increment is positive whenever the loop runs).  This holds even if two
    files had the same path. *)
Theorem no_command_is_repeated (h : Host) folder start inc exts :
  NoDup (calls (update_image_dates h folder start inc exts)).
Proof.
  destruct (calls_nil_or_loop h folder start inc exts)
    as [->|(entries & d0 & Hdir & Hinc & Hscan & Hstart & Hne)];
    [constructor|].
  rewrite (run_loop h folder start inc exts entries d0) by assumption.
  cbv zeta. rewrite calls_prepend_header.
  destruct (process_calls h inc
              (length (sorted_images folder (default IMAGE_EXTENSIONS exts)
                         entries)) 1 d0
              (sorted_images folder (default IMAGE_EXTENSIONS exts) entries))
    as [[k Hk] _].
  pose proof (planned_calls_NoDup d0 inc
                (sorted_images folder (default IMAGE_EXTENSIONS exts) entries)
                Hinc) as Hnd.
  rewrite Hk in Hnd. now apply NoDup_app in Hnd as [Hnd _].
Qed.

(** ** Names, paths and extensions *)

Lemma append_cons (x : ascii) (a b : string) :
  String x a +:+ b = String x (a +:+ b).
Proof. reflexivity. Qed.

Lemma append_nil_l (b : string) : EmptyString +:+ b = b.
Proof. reflexivity. Qed.

Lemma append_assoc (a b c : string) : (a +:+ b) +:+ c = a +:+ (b +:+ c).
Proof.
  induction a as [|x a IH]; [reflexivity|].
  rewrite !append_cons. now f_equal.
Qed.

Lemma length_append (a b : string) :
  String.length (a +:+ b) = (String.length a + String.length b)%nat.
Proof.
  induction a as [|x a IH]; [reflexivity|].
  rewrite append_cons. simpl. now f_equal.
Qed.

Lemma substring_all (s : string) : String.substring 0 (String.length s) s = s.
Proof. induction s as [|x s IH]; simpl; [reflexivity|now f_equal]. Qed.

Lemma substring_skip (a b : string) (m : nat) :
  String.substring (String.length a) m (a +:+ b) = String.substring 0 m b.
Proof.
  induction a as [|x a IH]; [reflexivity|].
  rewrite append_cons. simpl. exact IH.
Qed.

Lemma substring_take (a b : string) :
  String.substring 0 (String.length a) (a +:+ b) = a.
Proof.
  induction a as [|x a IH]; [now destruct b|].
  rewrite append_cons. simpl. now f_equal.
Qed.

(** The last occurrence of a character in a concatenation. *)
Lemma rfind_app (c : ascii) (a b : string) :
  Str.rfind c (a +:+ b)
  = if 0 <=? Str.rfind c b then Str.len a + Str.rfind c b else Str.rfind c a.
Proof.
  induction a as [|x a IH].
  - rewrite append_nil_l. unfold Str.len. simpl.
    destruct (Z.leb_spec 0 (Str.rfind c b)); [lia|].
    pose proof (rfind_lower_bound c b). lia.
  - rewrite append_cons. simpl Str.rfind.
    rewrite IH. unfold Str.len. simpl String.length.
    destruct (Z.leb_spec 0 (Str.rfind c b)) as [Hb|Hb].
    + destruct (Z.leb_spec 0 (Z.of_nat (String.length a) + Str.rfind c b));
        lia.
    + reflexivity.
Qed.

(** Where [rfind] finds the character, the string splits there, and the
    character does not occur behind. *)
Lemma rfind_split (c : ascii) (s : string) :
  0 <= Str.rfind c s ->
  exists pre suf,
    s = pre +:+ String c suf
    /\ Str.rfind c s = Str.len pre
    /\ forall i, String.get i suf <> Some c.
Proof.
  induction s as [|x s IH]; simpl; [lia|].
  destruct (Z.leb_spec 0 (Str.rfind c s)) as [Hs|Hs].
  - intros _. destruct (IH Hs) as (pre & suf & -> & Hlen & Hnot).
    exists (String x pre), suf. repeat split; [|exact Hnot].
    rewrite Hlen. unfold Str.len. simpl. lia.
  - destruct (Ascii.eqb_spec x c) as [->|_]; [|lia].
    intros _. exists EmptyString, s. repeat split.
    intros i Hi. clear IH. revert i Hi.
    induction s as [|y s IH]; intros i Hi; [now destruct i|].
    simpl in Hs.
    destruct (Z.leb_spec 0 (Str.rfind c s)) as [Hs'|Hs']; [lia|].
    destruct (Ascii.eqb_spec y c) as [->|Hyc]; [lia|].
    destruct i as [|i]; simpl in Hi; [congruence|].
    exact (IH Hs' i Hi).
Qed.

Lemma ends_with_sep_inv (s : string) :
  Str.ends_with_sep s = true -> exists pre, s = pre +:+ "/".
Proof.
  unfold Str.ends_with_sep. induction s as [|a s IH]; [discriminate|].
  simpl String.length. rewrite Nat.sub_1_r. simpl Nat.pred.
  destruct s as [|b s].
  - simpl. destruct (Ascii.eqb_spec a "/") as [->|_]; [|discriminate].
    intros _. now exists EmptyString.
  - simpl String.length. simpl String.get.
    simpl String.length in IH. rewrite Nat.sub_1_r in IH. simpl Nat.pred in IH.
    intros H. destruct (IH H) as [pre Hpre]. exists (String a pre).
    rewrite append_cons. now f_equal.
Qed.

Lemma basename_after_sep (pre n : string) :
  no_slash n -> Path.basename (pre +:+ String "/" n) = n.
Proof.
  intros Hn. unfold Path.basename, Str.slice.
  assert (Str.rfind "/" (String "/" n) = 0) as Hr.
  { simpl. now rewrite (rfind_absent "/" n Hn). }
  rewrite rfind_app, Hr. change (0 <=? 0) with true. cbv iota.
  unfold Str.len. rewrite length_append. simpl String.length.
  replace (Z.to_nat (Z.of_nat (String.length pre) + 0 + 1))
    with (String.length (pre +:+ "/"))
    by (rewrite length_append; simpl String.length; lia).
  replace (Z.to_nat
             (Z.of_nat (String.length pre + S (String.length n))
              - (Z.of_nat (String.length pre) + 0 + 1)))
    with (String.length n) by lia.
  replace (pre +:+ String "/" n) with ((pre +:+ "/") +:+ n)
    by (now rewrite append_assoc).
  rewrite substring_skip. apply substring_all.
Qed.

(** The base name of the path built from the folder and the name of an
    entry is the name again (a name of a directory entry has no slash),
    whether or not the folder was given with a trailing slash. *)
Lemma basename_entry_path (folder : string) (e : DirEntry) :
  no_slash (name e) ->
  Path.basename (entry_path folder e) = name e.
Proof.
  intros Hn. unfold entry_path, Path.join.
  destruct (Str.ends_with_sep folder) eqn:Hsep.
  - destruct (ends_with_sep_inv folder Hsep) as [pre ->].
    rewrite append_assoc. now apply basename_after_sep.
  - now apply basename_after_sep.
Qed.

(** [splitext] either finds no extension, or cuts the name at its last dot. *)
Lemma splitext_cases (p : string) :
  Path.splitext p = (p, EmptyString)
  \/ exists pre suf,
       p = pre +:+ String "." suf
       /\ (forall i, String.get i suf <> Some "."%char)
       /\ Path.splitext p = (pre, String "." suf).
Proof.
  unfold Path.splitext.
  destruct (Z.ltb_spec (Str.rfind "/" p) (Str.rfind "." p)) as [Hlt|_];
    [|now left].
  destruct (Path.finds_non_dot _ _ _ _); [|now left].
  right. pose proof (rfind_lower_bound "/" p) as Hsep.
  destruct (rfind_split "." p) as (pre & suf & Hp & Hlen & Hnot); [lia|].
  exists pre, suf. split; [exact Hp|]. split; [exact Hnot|].
  simpl andb. cbv iota. rewrite Hlen. unfold Str.slice, Str.len.
  rewrite Z.sub_0_r, !Nat2Z.id. f_equal.
  - rewrite Hp. apply substring_take.
  - rewrite Hp at 2. rewrite substring_skip.
    replace (Z.to_nat _) with (String.length (String "." suf)).
    + apply substring_all.
    + rewrite Hp, length_append. lia.
Qed.

Lemma lower_keeps_no_dot (suf : string) :
  (forall i, String.get i suf <> Some "."%char) ->
  forall i, String.get i (Str.lower suf) <> Some "."%char.
Proof.
  induction suf as [|a suf IH]; intros Hnot i; [now destruct i|].
  destruct i as [|i]; simpl.
  - intros [= Ha]. apply (Hnot 0%nat). simpl. f_equal.
    apply Ascii.eqb_eq. rewrite <- eqb_lower_char_dot, Ha.
    apply Ascii.eqb_refl.
  - apply IH. intros j. apply (Hnot (S j)).
Qed.

Lemma lower_ext_shaped (x : string) : ext_shaped x -> ext_shaped (Str.lower x).
Proof.
  intros [->|(suf & -> & Hnot)]; [now left|].
  right. exists (Str.lower suf). split; [reflexivity|].
  now apply lower_keeps_no_dot.
Qed.

Lemma splitext_concat (n : string) :
  (Path.splitext n).1 +:+ (Path.splitext n).2 = n.
Proof.
  destruct (splitext_cases n) as [->|(pre & suf & Hn & _ & ->)]; simpl.
  - induction n as [|a n IH]; [reflexivity|].
    rewrite append_cons. now f_equal.
  - now symmetry.
Qed.

Lemma lower_splitext_shaped (n : string) :
  ext_shaped (Str.lower (Path.splitext n).2).
Proof.
  apply lower_ext_shaped.
  destruct (splitext_cases n) as [->|(pre & suf & _ & Hnot & ->)]; simpl.
  - now left.
  - right. now exists suf.
Qed.

(** X9. What the filter looks up in the set of extensions.  [splitext] cuts
    a name in two parts that give the name back when joined.  The second
    part, lowered, is the string that is looked up: it is empty or a dot
    followed by a suffix without a dot, and lowering it again changes
    nothing. *)
Theorem looked_up_extension_shape (n : string) :
  (Path.splitext n).1 +:+ (Path.splitext n).2 = n
  /\ ext_shaped (Str.lower (Path.splitext n).2)
  /\ Str.lower (Str.lower (Path.splitext n).2) = Str.lower (Path.splitext n).2.
Proof.
  split; [apply splitext_concat|].
  split; [apply lower_splitext_shaped | apply lower_idemp].
Qed.

Lemma is_image_misshaped_entry (exts : gset string) (x : string)
    (e : DirEntry) :
  ~ ext_shaped x -> is_image ({[x]} ∪ exts) e = is_image exts e.
Proof.
  intros Hx. unfold is_image. f_equal. apply bool_decide_ext.
  rewrite elem_of_union, elem_of_singleton.
  split; [|tauto]. intros [Heq|Hin]; [|exact Hin].
  exfalso. apply Hx. rewrite <- Heq. apply lower_splitext_shaped.
Qed.

(** X10. An entry of the extension set that is not an empty string or a dot
    followed by a suffix without a dot (an entry without the leading dot such
    as [jpg], or with two dots such as [.tar.gz]) never matches a file:
    adding it to a set changes nothing, and a set made of such entries gives
    an empty list of files. *)
Theorem misshaped_entries_match_nothing (exts : gset string) (x : string) :
  ~ ext_shaped x ->
  (forall e, is_image ({[x]} ∪ exts) e = is_image exts e)
  /\ (forall folder entries, sorted_images folder {[x]} entries = []).
Proof.
  intros Hx. split; [intros e; now apply is_image_misshaped_entry|].
  intros folder entries. apply sorted_images_nil. intros e _.
  unfold is_image. rewrite bool_decide_eq_false_2; [apply andb_false_r|].
  rewrite elem_of_singleton. intros Heq. apply Hx. rewrite <- Heq.
  apply lower_splitext_shaped.
Qed.

(** The entries [jpg] and [.tar.gz] on a folder with [a.jpg] and
    [b.tar.gz]. *)
Lemma misshaped_entries_witness :
  sorted_images "pics" {[ "jpg" ]} [entry "a.jpg"; entry "b.tar.gz"] = []
  /\ sorted_images "pics" {[ ".tar.gz" ]} [entry "a.jpg"; entry "b.tar.gz"]
     = [].
Proof.
  assert (~ ext_shaped "jpg") as H1.
  { intros [H|(suf & H & _)]; discriminate. }
  assert (~ ext_shaped ".tar.gz") as H2.
  { intros [H|(suf & H & Hnot)]; [discriminate|].
    injection H as <-. now apply (Hnot 3%nat). }
  split.
  - exact (proj2 (misshaped_entries_match_nothing ∅ "jpg" H1) "pics"
             [entry "a.jpg"; entry "b.tar.gz"]).
  - exact (proj2 (misshaped_entries_match_nothing ∅ ".tar.gz" H2) "pics"
             [entry "a.jpg"; entry "b.tar.gz"]).
Defined.

(** ** main *)

Lemma printed_emit_Print (m : message) (r : result) :
  printed (emit (Print m) r) = m :: printed r.
Proof. reflexivity. Qed.

Lemma printed_emit_Ran (c : command) (o : run_outcome) (r : result) :
  printed (emit (Ran c o) r) = printed r.
Proof. reflexivity. Qed.

Lemma on_error_printed (f : string) (e : CalledProcessError) :
  Forall loop_message (printed (on_error f e)).
Proof.
  unfold on_error. destruct (mentions_SetFile e);
    rewrite !printed_emit_Print; repeat constructor.
Qed.

Lemma process_printed (h : Host) (m : Z) (total i : nat) (d : datetime)
    (files : list string) :
  Forall loop_message (printed (process h m total i d files)).
Proof.
  revert i d. induction files as [|f fs IH]; intros i d; [constructor|].
  rewrite process_cons, printed_emit_Ran.
  destruct (subprocess_run h (Touch d f)) as [|rc|e];
    [|apply on_error_printed|constructor].
  rewrite printed_emit_Ran.
  destruct (subprocess_run h (SetFile d f)) as [|rc|e];
    [|apply on_error_printed|constructor].
  rewrite printed_emit_Print. constructor; [exact I|].
  destruct (Datetime.add_minutes d m); [constructor|apply IH].
Qed.

(** The increment error is printed for a non-positive increment only. *)
Lemma increment_error_only_if_not_positive (h : Host) folder start inc exts :
  IncrementNotPositive ∈ printed (update_image_dates h folder start inc exts) ->
  inc <= 0.
Proof.
  unfold update_image_dates.
  destruct (negb (isdir h folder)).
  { rewrite printed_emit_Print, elem_of_cons. intros [H|H]; [discriminate|].
    inversion H. }
  destruct (Z.leb_spec inc 0) as [Hle|Hpos]; [auto|].
  destruct (scandir h folder) as [e|entries]; [intros H; inversion H|].
  cbv zeta.
  destruct (sorted_images folder (default IMAGE_EXTENSIONS exts) entries)
    as [|f fs].
  { rewrite printed_emit_Print, elem_of_cons. intros [H|H]; [discriminate|].
    inversion H. }
  destruct (resolve_start h start) as [d0|].
  - rewrite !printed_emit_Print, !elem_of_cons.
    intros [H|[H|[H|H]]]; try discriminate.
    pose proof (process_printed h inc (length (f :: fs)) 1 d0 (f :: fs)) as Hall.
    rewrite Forall_forall in Hall. destruct (Hall _ H).
  - rewrite printed_emit_Print, elem_of_cons. intros [H|H]; [discriminate|].
    inversion H.
Qed.

(** X11. [main] starts a run only when a folder is chosen and both later
    dialogs are answered.  The date and increment dialogs are opened exactly
    when a folder is chosen, both of them even if the first is cancelled.
    A timestamp-setting call is issued only if, moreover, the folder is a
    directory and the increment answered is not negative. *)
Theorem main_runs_only_when_answered (h : Host) (ui : Dialogs) :
  (started (main h ui) = None
   <-> askdirectory ui = EmptyString
       \/ askstring ui = None \/ askinteger ui = None)
  /\ (AskString ∈ gui (main h ui) <-> askdirectory ui <> EmptyString)
  /\ (AskInteger ∈ gui (main h ui) <-> askdirectory ui <> EmptyString)
  /\ (main_calls (main h ui) <> [] ->
      askdirectory ui <> EmptyString
      /\ isdir h (askdirectory ui) = true
      /\ (exists s, askstring ui = Some s)
      /\ (exists n, askinteger ui = Some n /\ 0 <= n)).
Proof.
  unfold main, main_calls.
  destruct (String.eqb_spec (askdirectory ui) "") as [Hempty|Hfolder].
  - simpl. repeat split; try tauto; try congruence.
    + intros H. apply elem_of_cons in H as [H|H]; [discriminate|].
      apply elem_of_cons in H as [H|H]; [discriminate|inversion H].
    + intros H. apply elem_of_cons in H as [H|H]; [discriminate|].
      apply elem_of_cons in H as [H|H]; [discriminate|inversion H].
  - destruct (askstring ui) as [s|], (askinteger ui) as [n|]; simpl;
      (split; [split; [try discriminate; tauto
                      |intros [?|[?|?]]; congruence]|]);
      (split; [split; [auto|intros _; set_solver]|]);
      (split; [split; [auto|intros _; set_solver]|]);
      try congruence.
    intros Hcalls. split; [exact Hfolder|].
    destruct (calls_nil_or_loop h (askdirectory ui)
                (if String.eqb s "" then None else Some (Text s))
                (if n =? 0 then 60 else n) None)
      as [Hnil|(entries & d0 & Hdir & Hinc & _)]; [contradiction|].
    split; [exact Hdir|]. split; [eauto|]. exists n. split; [reflexivity|].
    destruct (Z.eqb_spec n 0); lia.
Qed.

(** The folder [pics] chosen, the date left blank, one minute. *)
Lemma main_runs_only_when_answered_witness :
  askdirectory {| askdirectory := "pics"; askstring := Some "";
                  askinteger := Some 1 |} <> EmptyString
  /\ isdir (host_with abc all_succeed) "pics" = true.
Proof.
  assert (main_calls (main (host_with abc all_succeed)
                        {| askdirectory := "pics"; askstring := Some "";
                           askinteger := Some 1 |}) <> []) as Hcalls.
  { vm_compute. discriminate. }
  destruct (proj2 (proj2 (proj2 (main_runs_only_when_answered
                                   (host_with abc all_succeed)
                                   {| askdirectory := "pics";
                                      askstring := Some "";
                                      askinteger := Some 1 |}))) Hcalls)
    as (H1 & H2 & _).
  split; [exact H1 | exact H2].
Defined.

(** X12. How [main] passes the answers on.  With a folder chosen, a date
    text [s] and an increment [n] answered: a blank date starts the run at
    the current time of the host, another text is parsed; the extension set
    is the default one; an increment of at least 1 (the dialog has this
    minimum) is used as it is, and the increment error is never printed for
    an answer that is not negative, an answer of 0 being replaced by 60. *)
Theorem main_passes_the_answers (h : Host) (ui : Dialogs) (s : string)
    (n : Z) :
  askdirectory ui <> EmptyString ->
  askstring ui = Some s ->
  askinteger ui = Some n ->
  (1 <= n ->
   started (main h ui)
   = Some (update_image_dates h (askdirectory ui)
             (if String.eqb s "" then Some (Moment (now h))
              else Some (Text s))
             n None))
  /\ (n = 0 ->
      started (main h ui)
      = Some (update_image_dates h (askdirectory ui)
                (if String.eqb s "" then Some (Moment (now h))
                 else Some (Text s))
                60 None))
  /\ (0 <= n ->
      forall r, started (main h ui) = Some r ->
                IncrementNotPositive ∉ printed r).
Proof.
  intros Hfolder Hs Hn. unfold main.
  destruct (String.eqb_spec (askdirectory ui) "") as [?|_]; [contradiction|].
  rewrite Hs, Hn. simpl.
  assert (forall inc,
            update_image_dates h (askdirectory ui)
              (if String.eqb s "" then None else Some (Text s)) inc None
            = update_image_dates h (askdirectory ui)
                (if String.eqb s "" then Some (Moment (now h))
                 else Some (Text s)) inc None) as Hblank.
  { intros inc. now destruct (String.eqb s ""). }
  split; [|split].
  - intros Hpos. destruct (Z.eqb_spec n 0); [lia|]. now rewrite Hblank.
  - intros ->. simpl. now rewrite Hblank.
  - intros Hnn r [= <-] Hin.
    apply increment_error_only_if_not_positive in Hin.
    destruct (Z.eqb_spec n 0); lia.
Qed.

Lemma main_passes_the_answers_witness :
  started (main (host_with abc all_succeed)
             {| askdirectory := "pics"; askstring := Some "";
                askinteger := Some 5 |})
  = Some (update_image_dates (host_with abc all_succeed) "pics"
            (Some (Moment (now (host_with abc all_succeed)))) 5 None).
Proof.
  assert (askdirectory {| askdirectory := "pics"; askstring := Some "";
                          askinteger := Some 5 |} <> EmptyString) as Hf
    by discriminate.
  assert (1 <= 5) as H5 by lia.
  exact (proj1 (main_passes_the_answers (host_with abc all_succeed)
                  {| askdirectory := "pics"; askstring := Some "";
                     askinteger := Some 5 |} "" 5 Hf eq_refl eq_refl) H5).
Defined.

(** ** Runs that stop early keep to the schedule *)

(** X13. In every run, complete or not, the calls issued are an initial
    part of the schedule of the complete run: the file at sorted position
    [j] is only ever given the date [start + j * increment] minutes, first
    by [touch], then by [SetFile].  A run that is cut short has given the
    files it reached the dates they get in a complete run. *)
Theorem calls_follow_the_schedule (h : Host) folder start inc exts entries
    d0 :
  scandir h folder = inr entries ->
  resolve_start h start = Some d0 ->
  calls (update_image_dates h folder start inc exts)
  `prefix_of` planned_calls d0 inc
                (sorted_images folder (default IMAGE_EXTENSIONS exts) entries)
  /\ forall (k : nat) (c : command),
       calls (update_image_dates h folder start inc exts) !! k = Some c ->
       command_date c = d0 + Z.of_nat (k / 2) * (inc * 60000000)
       /\ sorted_images folder (default IMAGE_EXTENSIONS exts) entries
            !! (k / 2)%nat = Some (command_path c).
Proof.
  intros Hscan Hstart.
  assert (calls (update_image_dates h folder start inc exts)
          `prefix_of` planned_calls d0 inc
                        (sorted_images folder (default IMAGE_EXTENSIONS exts)
                           entries)) as Hprefix.
  { destruct (calls_nil_or_loop h folder start inc exts)
      as [->|(entries' & d0' & Hdir & Hinc & Hscan' & Hstart' & Hne)];
      [apply prefix_nil|].
    assert (entries' = entries) as -> by congruence.
    assert (d0' = d0) as -> by congruence.
    rewrite (run_loop h folder start inc exts entries d0) by assumption.
    cbv zeta. rewrite calls_prepend_header. apply process_calls. }
  split; [exact Hprefix|].
  intros k c Hk.
  pose proof (prefix_lookup_Some _ _ _ _ Hk Hprefix) as Hplan.
  split; [exact (planned_calls_date _ _ _ _ _ Hplan)|].
  clear Hk Hprefix Hstart Hscan. revert Hplan.
  generalize (sorted_images folder (default IMAGE_EXTENSIONS exts) entries).
  intros files. revert d0 k.
  induction files as [|f fs IH]; intros d0 k Hplan; [discriminate|].
  rewrite planned_calls_cons in Hplan.
  destruct k as [|[|k]]; simpl in Hplan.
  - now injection Hplan as <-.
  - now injection Hplan as <-.
  - apply IH in Hplan.
    replace (S (S k)) with (k + 1 * 2)%nat by lia.
    rewrite Nat.div_add by lia. rewrite Nat.add_1_r. exact Hplan.
Qed.

(** The third call of a run that [touch] cuts short at [b.jpg]. *)
Lemma calls_follow_the_schedule_witness :
  command_date (Touch 63839667600000000 "pics/b.jpg")
  = new_year_2024 + Z.of_nat (2 / 2) * (60 * 60000000).
Proof.
  exact (proj1 (proj2 (calls_follow_the_schedule
                         (host_with abc (touch_fails_on "pics/b.jpg")) "pics"
                         (Some (Moment new_year_2024)) 60 None abc
                         new_year_2024 eq_refl eq_refl)
                  2%nat (Touch 63839667600000000 "pics/b.jpg") eq_refl)).
Defined.

(** ** Progress lines *)

Lemma on_error_no_Updated (f : string) (e : CalledProcessError)
    (i n : nat) (b : string) (d : datetime) :
  Updated i n b d ∉ printed (on_error f e).
Proof.
  intros Hin. pose proof (on_error_printed f e) as Hall.
  rewrite Forall_forall in Hall.
  unfold on_error in Hin. destruct (mentions_SetFile e);
    rewrite !printed_emit_Print in Hin;
    repeat (apply elem_of_cons in Hin as [Hin|Hin]; [discriminate|]);
    inversion Hin.
Qed.

(** A progress line of the loop is the line of one of its files: the number
    counts the files from the first index of the loop, and the name is the
    base name of the file. *)
Lemma process_Updated (h : Host) (m : Z) (total i0 : nat) (d0 : datetime)
    (files : list string) (i n : nat) (b : string) (d : datetime) :
  Updated i n b d ∈ printed (process h m total i0 d0 files) ->
  exists j f,
    files !! j = Some f /\ i = (i0 + j)%nat /\ n = total
    /\ b = Path.basename f.
Proof.
  revert i0 d0. induction files as [|f fs IH]; intros i0 d0 Hin;
    [inversion Hin|].
  rewrite process_cons, printed_emit_Ran in Hin.
  destruct (subprocess_run h (Touch d0 f)) as [|rc|e];
    [|now apply on_error_no_Updated in Hin|inversion Hin].
  rewrite printed_emit_Ran in Hin.
  destruct (subprocess_run h (SetFile d0 f)) as [|rc|e];
    [|now apply on_error_no_Updated in Hin|inversion Hin].
  rewrite printed_emit_Print in Hin. apply elem_of_cons in Hin as [Heq|Hin].
  - injection Heq as -> -> -> ->. exists 0%nat, f.
    repeat split. lia.
  - destruct (Datetime.add_minutes d0 m) as [e|d']; [inversion Hin|].
    destruct (IH (S i0) d' Hin) as (j & f' & Hj & -> & -> & ->).
    exists (S j), f'. repeat split; [exact Hj|lia].
Qed.

(** X8. The progress line of a file shows the name of its directory entry.
    When the names of the children have no slash, every progress line
    [i of n, name] that a run prints is the line of the file at sorted
    position [i - 1]: [n] is the number of files of the run, and the name
    shown is the name of the child whose path is that file, whether or not
    the folder was given with a trailing slash. *)
Theorem progress_line_shows_entry_name (h : Host) folder start inc exts
    entries (i n : nat) (b : string) (d : datetime) :
  scandir h folder = inr entries ->
  (forall e, e ∈ entries -> no_slash (name e)) ->
  Updated i n b d ∈ printed (update_image_dates h folder start inc exts) ->
  exists e,
    e ∈ entries
    /\ is_image (default IMAGE_EXTENSIONS exts) e = true
    /\ b = name e
    /\ (1 <= i)%nat
    /\ sorted_images folder (default IMAGE_EXTENSIONS exts) entries
         !! (i - 1)%nat = Some (entry_path folder e)
    /\ n = length (sorted_images folder (default IMAGE_EXTENSIONS exts)
                     entries).
Proof.
  intros Hscan Hnames. unfold update_image_dates.
  destruct (negb (isdir h folder)).
  { rewrite printed_emit_Print, elem_of_cons. intros [H|H]; [discriminate|].
    inversion H. }
  destruct (inc <=? 0).
  { rewrite printed_emit_Print, elem_of_cons. intros [H|H]; [discriminate|].
    inversion H. }
  rewrite Hscan. cbv zeta.
  destruct (sorted_images folder (default IMAGE_EXTENSIONS exts) entries)
    as [|f fs] eqn:Hfiles.
  { rewrite printed_emit_Print, elem_of_cons. intros [H|H]; [discriminate|].
    inversion H. }
  destruct (resolve_start h start) as [d0|].
  - rewrite !printed_emit_Print, !elem_of_cons.
    intros [H|[H|[H|H]]]; try discriminate.
    apply process_Updated in H as (j & f' & Hj & -> & -> & ->).
    assert (f' ∈ sorted_images folder (default IMAGE_EXTENSIONS exts) entries)
      as Hin by (rewrite Hfiles; eapply list_elem_of_lookup_2; exact Hj).
    apply elem_of_sorted_images in Hin as (e & He & Himg & <-).
    exists e. split; [exact He|]. split; [exact Himg|].
    split; [now apply basename_entry_path, Hnames|].
    split; [lia|]. split; [|reflexivity].
    replace (1 + j - 1)%nat with j by lia. exact Hj.
  - rewrite printed_emit_Print, elem_of_cons. intros [H|H]; [discriminate|].
    inversion H.
Qed.

(** The second progress line of the run on the example folder. *)
Lemma progress_line_witness :
  exists e,
    e ∈ abc
    /\ is_image (default IMAGE_EXTENSIONS None) e = true
    /\ "b.jpg" = name e
    /\ (1 <= 2)%nat
    /\ sorted_images "pics" (default IMAGE_EXTENSIONS None) abc
         !! (2 - 1)%nat = Some (entry_path "pics" e)
    /\ 3%nat = length (sorted_images "pics" (default IMAGE_EXTENSIONS None) abc).
Proof.
  assert (forall e, e ∈ abc -> no_slash (name e)) as Hnames.
  { intros e He. apply list_elem_of_In in He.
    destruct He as [<-|[<-|[<-|[]]]]; intros i;
      do 6 (destruct i as [|i]; [discriminate|]); discriminate. }
  assert (Updated 2 3 "b.jpg" 63839667600000000
            ∈ printed (update_image_dates (host_with abc all_succeed) "pics"
                         (Some (Moment new_year_2024)) 60 None))
    as Hin.
  { apply list_elem_of_In. vm_compute. do 4 right. left. reflexivity. }
  exact (progress_line_shows_entry_name (host_with abc all_succeed) "pics"
           (Some (Moment new_year_2024)) 60 None abc 2 3 "b.jpg"
           63839667600000000 eq_refl Hnames Hin).
Defined.

(** ** Commands that cannot be started *)

Lemma process_report_exit (h : Host) (m : Z) (total i : nat) (d : datetime)
    (files : list string) (f : string) (err : CalledProcessError) :
  ErrorUpdating f err ∈ printed (process h m total i d files) ->
  exit (process h m total i d files) = Returned
  \/ exit (process h m total i d files) = Broke.
Proof.
  revert i d. induction files as [|x fs IH]; intros i d Hin; [inversion Hin|].
  rewrite process_cons, printed_emit_Ran in Hin. rewrite process_cons, exit_emit.
  destruct (subprocess_run h (Touch d x)) as [|rc|e].
  - rewrite printed_emit_Ran in Hin. rewrite exit_emit.
    destruct (subprocess_run h (SetFile d x)) as [|rc|e].
    + rewrite printed_emit_Print in Hin. rewrite exit_emit.
      apply elem_of_cons in Hin as [Heq|Hin]; [discriminate|].
      destruct (Datetime.add_minutes d m) as [e|d']; [inversion Hin|].
      now apply IH.
    + rewrite on_error_exit. destruct (mentions_SetFile _); auto.
    + inversion Hin.
  - rewrite on_error_exit. destruct (mentions_SetFile _); auto.
  - inversion Hin.
Qed.

(** An error line for a file is printed only by runs that end with [return]
    or [break]: a run that raises has printed none. *)
Lemma report_only_when_returning (h : Host) folder start inc exts
    (f : string) (err : CalledProcessError) :
  ErrorUpdating f err ∈ printed (update_image_dates h folder start inc exts) ->
  exit (update_image_dates h folder start inc exts) = Returned
  \/ exit (update_image_dates h folder start inc exts) = Broke.
Proof.
  unfold update_image_dates.
  destruct (negb (isdir h folder)); [now left|].
  destruct (inc <=? 0); [now left|].
  destruct (scandir h folder) as [e|entries]; [intros H; inversion H|].
  cbv zeta.
  destruct (sorted_images folder (default IMAGE_EXTENSIONS exts) entries)
    as [|x fs]; [now left|].
  destruct (resolve_start h start) as [d0|]; [|now left].
  rewrite !printed_emit_Print, !elem_of_cons, !exit_emit.
  intros [H|[H|[H|H]]]; try discriminate.
  now apply process_report_exit in H.
Qed.

(** C2 (the code departs from the specification). Let the sorted files be
    [before ++ B :: after], let both commands succeed on every file of
    [before], and let a command on [B] fail because its program cannot be
    started (the launch raises [e], as on a host without [SetFile]).  The
    run stops there: the files of [before] are updated and no command
    follows the failing one.  But it does not report the error: no error
    line is printed for [B] or for any file, and the exception [e] leaves
    the function. *)
Theorem launch_failure_aborts_without_report (h : Host) folder start inc exts
    entries d0 (before after : list string) (B : string) (c : command)
    (e : exn) :
  isdir h folder = true ->
  0 < inc ->
  scandir h folder = inr entries ->
  resolve_start h start = Some d0 ->
  sorted_images folder (default IMAGE_EXTENSIONS exts) entries
  = before ++ B :: after ->
  (forall j f, before !! j = Some f ->
     subprocess_run h (Touch (date_at d0 inc j) f) = Completed
     /\ subprocess_run h (SetFile (date_at d0 inc j) f) = Completed
     /\ Datetime.add_minutes (date_at d0 inc j) inc
        = inr (date_at d0 inc (S j))) ->
  c = Touch (date_at d0 inc (length before)) B
  \/ (c = SetFile (date_at d0 inc (length before)) B
      /\ subprocess_run h (Touch (date_at d0 inc (length before)) B)
         = Completed) ->
  subprocess_run h c = NotStarted e ->
  update_image_dates h folder start inc exts
  = {| log :=
         header (length (before ++ B :: after)) d0 inc
         ++ concat (imap (update_events (length (before ++ B :: after)) d0 inc)
                      before)
         ++ match c with
            | Touch _ _ => []
            | SetFile d p => [Ran (Touch d p) Completed]
            end
         ++ [Ran c (NotStarted e)];
       exit := Raised e |}
  /\ forall (f : string) (err : CalledProcessError),
       ErrorUpdating f err
         ∉ printed (update_image_dates h folder start inc exts).
Proof.
  intros Hdir Hinc Hscan Hstart Hfiles Hok Hc Hrun.
  assert (update_image_dates h folder start inc exts
          = {| log :=
                 header (length (before ++ B :: after)) d0 inc
                 ++ concat (imap (update_events
                                    (length (before ++ B :: after)) d0 inc)
                              before)
                 ++ match c with
                    | Touch _ _ => []
                    | SetFile d p => [Ran (Touch d p) Completed]
                    end
                 ++ [Ran c (NotStarted e)];
               exit := Raised e |}) as Hrun_eq.
  { rewrite (run_loop h folder start inc exts entries d0); try assumption;
      [|rewrite Hfiles; now destruct before].
    cbv zeta. rewrite Hfiles.
    rewrite (process_first_failure h inc _ d0 before after B c
               (NotStarted e)); try assumption; [|discriminate].
    rewrite prepend_app. unfold prepend. simpl.
    now rewrite app_nil_r, <- ?app_assoc. }
  split; [exact Hrun_eq|].
  intros f err Hin. apply report_only_when_returning in Hin.
  rewrite Hrun_eq in Hin. simpl in Hin. destruct Hin; discriminate.
Qed.

(** The example folder on a host without [SetFile]: [touch] has changed
    [a.jpg], the launch of [SetFile] raises, and the three header lines are
    all that is printed. *)
Lemma launch_failure_witness :
  subprocess_run (host_with abc no_SetFile)
    (SetFile new_year_2024 "pics/a.jpg") = NotStarted FileNotFoundError
  /\ update_image_dates (host_with abc no_SetFile) "pics"
       (Some (Text "2024-01-01 00:00:00")) 60 None
     = {| log := [Print (Found 3); Print (StartingDate 63839664000000000);
                  Print (IncrementIs 60);
                  Ran (Touch 63839664000000000 "pics/a.jpg") Completed;
                  Ran (SetFile 63839664000000000 "pics/a.jpg")
                    (NotStarted FileNotFoundError)];
          exit := Raised FileNotFoundError |}.
Proof.
  split; [reflexivity|].
  assert (forall j f, @nil string !! j = Some f ->
            subprocess_run (host_with abc no_SetFile)
              (Touch (date_at new_year_2024 60 j) f) = Completed
            /\ subprocess_run (host_with abc no_SetFile)
                 (SetFile (date_at new_year_2024 60 j) f) = Completed
            /\ Datetime.add_minutes (date_at new_year_2024 60 j) 60
               = inr (date_at new_year_2024 60 (S j))) as Hok.
  { intros j f Hj. destruct j; discriminate. }
  exact (proj1 (launch_failure_aborts_without_report
                  (host_with abc no_SetFile) "pics"
                  (Some (Text "2024-01-01 00:00:00")) 60 None abc
                  new_year_2024 [] ["pics/b.jpg"; "pics/c.png"] "pics/a.jpg"
                  (SetFile new_year_2024 "pics/a.jpg") FileNotFoundError
                  eq_refl eq_refl eq_refl eq_refl eq_refl Hok
                  (or_intror (conj eq_refl eq_refl)) eq_refl)).
Defined.
